(** * abipy/dfpt/ddb.py: the DDB file reader, the q-mesh guess and the
      Born effective charges

    A shallow embedding of [DdbFile._parse_header], [DdbFile._read_qpoints],
    [DdbFile.guessed_ngqpt], [Becs.__init__] and [Becs.check_sumrule].

    Conventions of the embedding.
    - The module is Python 2 code ([map] returns a list, [np.int] is the C
      long).  A file is the list of its lines; a [str] is a [string].
    - A Python exception is a value of [exception]; code that can raise
      returns a [result].  The exception classes are the ones the
      interpreter and numpy raise at the statement in question.
    - A binary64 number is its exact value: a rational, an infinity or NaN
      ([Float64.float64]).  Arithmetic on finite values is exact, so the
      rounding of a quotient or of a decimal literal to 53 bits is not
      represented, and the two zeros are one value (the code only ever
      compares them with [0]).  The conversion of a double outside the
      64-bit range to an integer is the one of x86-64.
    - The specification names the failures by kind (ParseError,
      ShapeMismatchError, InvalidInputError); the statements below name
      the Python exception with which the code fails. *)

From Stdlib Require Import ZArith QArith Qabs Qround Lqa String Ascii List Bool Lia.
From stdpp Require Import base option list gmap strings.

Local Open Scope Z_scope.

(** ** Python exceptions and results *)

Inductive exception : Type :=
  | ValueError
  | IndexError
  | AssertionError
  | UnboundLocalError (name : string)
  | NameError (name : string)
  | AttributeError (name : string)
  | KeyError (name : string).

Inductive result (A : Type) : Type :=
  | Ok (a : A)
  | Raise (e : exception).
Arguments Ok {A} a.
Arguments Raise {A} e.

#[global] Instance result_ret : MRet result := @Ok.
#[global] Instance result_bind : MBind result := fun A B f m =>
  match m with
  | Ok a => f a
  | Raise e => Raise e
  end.
#[global] Instance result_fmap : FMap result := fun A B f m =>
  match m with
  | Ok a => Ok (f a)
  | Raise e => Raise e
  end.

(** [map(f, xs)] of Python 2 for an [f] that can raise: eager, left to
    right, the first exception wins. *)
Fixpoint map_result {A B : Type} (f : A → result B) (xs : list A) : result (list B) :=
  match xs with
  | [] => Ok []
  | x :: xs' => y ← f x; ys ← map_result f xs'; Ok (y :: ys)
  end.

(** ** binary64 values *)

Module Float64.

Inductive float64 : Type :=
  | NaN
  | Inf (neg : bool)
  | Fin (q : Q).

Definition Qneg_bool (q : Q) : bool := negb (Qle_bool 0 q).

Definition of_Z (z : Z) : float64 := Fin (inject_Z z).

(** [x == 0] *)
Definition is_zero (x : float64) : bool :=
  match x with
  | Fin q => Qeq_bool q 0
  | _ => false
  end.

Definition add (x y : float64) : float64 :=
  match x, y with
  | NaN, _ | _, NaN => NaN
  | Inf a, Inf b => if Bool.eqb a b then Inf a else NaN
  | Inf a, Fin _ | Fin _, Inf a => Inf a
  | Fin p, Fin q => Fin (Qred (p + q))
  end.

Definition mul (x y : float64) : float64 :=
  match x, y with
  | NaN, _ | _, NaN => NaN
  | Inf a, Inf b => Inf (xorb a b)
  | Inf a, Fin q | Fin q, Inf a =>
      if Qeq_bool q 0 then NaN else Inf (xorb a (Qneg_bool q))
  | Fin p, Fin q => Fin (Qred (p * q))
  end.

(** [np.abs] *)
Definition abs (x : float64) : float64 :=
  match x with
  | NaN => NaN
  | Inf _ => Inf false
  | Fin q => Fin (Qabs q)
  end.

(** [np.minimum]: a NaN operand gives NaN. *)
Definition min (x y : float64) : float64 :=
  match x, y with
  | NaN, _ | _, NaN => NaN
  | Inf true, _ | _, Inf true => Inf true
  | Inf false, z | z, Inf false => z
  | Fin p, Fin q => if Qle_bool p q then Fin p else Fin q
  end.

(** [1 / x].  The quotient by zero is an infinity in numpy (with a
    warning); [guessed_ngqpt] replaces zeros before it divides. *)
Definition inv (x : float64) : float64 :=
  match x with
  | NaN => NaN
  | Inf _ => Fin 0
  | Fin q => if Qeq_bool q 0 then Inf false else Fin (Qred (/ q))
  end.

(** Round to the nearest integer, ties to the even one. *)
Definition Qrint (q : Q) : Z :=
  let f := Qfloor q in
  match Qcompare (q - inject_Z f) (1 # 2) with
  | Lt => f
  | Gt => f + 1
  | Eq => if Z.even f then f else f + 1
  end.

(** [np.rint] *)
Definition rint (x : float64) : float64 :=
  match x with
  | Fin q => of_Z (Qrint q)
  | _ => x
  end.

Definition int64_min : Z := - 2 ^ 63.
Definition int64_max : Z := 2 ^ 63 - 1.

(** Truncation towards zero. *)
Definition Qtrunc (q : Q) : Z :=
  if Qle_bool 0 q then Qfloor q else Qceiling q.

(** The conversion of a double to the C long that numpy performs for
    [np.array(a, dtype=np.int)] on a float array: truncation; for NaN,
    an infinity or a value outside the 64-bit range C leaves the result
    open, and the x86-64 conversion instruction gives the smallest
    integer. *)
Definition to_int64 (x : float64) : Z :=
  match x with
  | Fin q =>
      let t := Qtrunc q in
      if (int64_min <=? t) && (t <=? int64_max) then t else int64_min
  | _ => int64_min
  end.

End Float64.
Export Float64.

(** ** Python strings and numbers *)

Module Py.

(** The characters [str.strip] and [str.split] treat as blanks: space,
    tab, line feed, vertical tab, form feed, carriage return. *)
Definition isspace (c : ascii) : bool :=
  let n := nat_of_ascii c in
  Nat.eqb n 32 || (Nat.leb 9 n && Nat.leb n 13).

Fixpoint lstrip (s : string) : string :=
  match s with
  | EmptyString => EmptyString
  | String c s' => if isspace c then lstrip s' else s
  end.

Fixpoint rstrip (s : string) : string :=
  match s with
  | EmptyString => EmptyString
  | String c s' =>
      match rstrip s' with
      | EmptyString => if isspace c then EmptyString else String c EmptyString
      | r => String c r
      end
  end.

(** [s.strip()] *)
Definition strip (s : string) : string := rstrip (lstrip s).

Definition starts_blank (s : string) : bool :=
  match s with
  | EmptyString => true
  | String c _ => isspace c
  end.

(** [s.split()]: the maximal runs of non-blank characters. *)
Fixpoint split (s : string) : list string :=
  match s with
  | EmptyString => []
  | String c s' =>
      if isspace c then split s'
      else if starts_blank s' then String c EmptyString :: split s'
      else match split s' with
           | t :: ts => String c t :: ts
           | [] => [String c EmptyString]
           end
  end.

(** [s.startswith(p)] *)
Definition startswith (p s : string) : bool := String.prefix p s.

(** [sub in s] *)
Fixpoint contains (sub s : string) : bool :=
  String.prefix sub s ||
  match s with
  | EmptyString => false
  | String _ s' => contains sub s'
  end.

(** [s.replace(old, new)] for a non-empty [old]: the occurrences are
    found from the left and do not overlap; [skip] counts the characters
    of a found occurrence that are still to be dropped. *)
Fixpoint replace_from (old new : string) (skip : nat) (s : string) : string :=
  match s with
  | EmptyString => EmptyString
  | String c s' =>
      match skip with
      | S k => replace_from old new k s'
      | O =>
          if String.prefix old s
          then String.append new (replace_from old new (Nat.pred (String.length old)) s')
          else String c (replace_from old new O s')
      end
  end.

(** With an empty [old], Python puts [new] before every character and at
    the end. *)
Fixpoint intersperse (new s : string) : string :=
  match s with
  | EmptyString => new
  | String c s' => String.append new (String c (intersperse new s'))
  end.

Definition replace (old new s : string) : string :=
  match old with
  | EmptyString => intersperse new s
  | _ => replace_from old new O s
  end.

(** *** Numbers *)

Inductive num : Type :=
  | PyInt (z : Z)
  | PyFloat (x : float64).

Definition is_int (v : num) : bool :=
  match v with PyInt _ => true | PyFloat _ => false end.
Definition is_float (v : num) : bool :=
  match v with PyInt _ => false | PyFloat _ => true end.

Definition digit (c : ascii) : option Z :=
  let n := nat_of_ascii c in
  if Nat.leb 48 n && Nat.leb n 57 then Some (Z.of_nat (n - 48)) else None.

(** The longest prefix of decimal digits: its value read after [acc], the
    number of its digits and what follows it. *)
Fixpoint digits (acc : Z) (count : nat) (s : string) : Z * nat * string :=
  match s with
  | EmptyString => (acc, count, s)
  | String c s' =>
      match digit c with
      | Some d => digits (10 * acc + d) (S count) s'
      | None => (acc, count, s)
      end
  end.

(** An optional sign: [true] for a minus. *)
Definition sign (s : string) : bool * string :=
  match s with
  | String "-" s' => (true, s')
  | String "+" s' => (false, s')
  | _ => (false, s)
  end.

Definition signed (neg : bool) (z : Z) : Z := if neg then - z else z.

(** [int(tok)] on a token without blanks: an optional sign and decimal
    digits. *)
Definition int (tok : string) : result Z :=
  let '(neg, s) := sign tok in
  match digits 0 O s with
  | (z, S _, EmptyString) => Ok (signed neg z)
  | _ => Raise ValueError
  end.

Definition lower (c : ascii) : ascii :=
  let n := nat_of_ascii c in
  if Nat.leb 65 n && Nat.leb n 90 then ascii_of_nat (n + 32) else c.

Fixpoint lowercase (s : string) : string :=
  match s with
  | EmptyString => EmptyString
  | String c s' => String (lower c) (lowercase s')
  end.

(** The exponent part of a decimal literal: nothing, or [e]/[E], an
    optional sign and digits up to the end of the token. *)
Definition exponent (s : string) : option Z :=
  match s with
  | EmptyString => Some 0
  | String c s' =>
      if Ascii.eqb (lower c) "e" then
        let '(neg, s'') := sign s' in
        match digits 0 O s'' with
        | (z, S _, EmptyString) => Some (signed neg z)
        | _ => None
        end
      else None
  end.

(** The value [m * 10 ^ e]. *)
Definition scale10 (m e : Z) : Q :=
  if 0 <=? e then inject_Z (m * 10 ^ e)
  else Qred (Qmake m (Z.to_pos (10 ^ (- e)))).

(** [float(tok)] on a token without blanks: an optional sign, then
    [inf], [infinity] or [nan] in any case, or a decimal literal with
    digits before or after an optional point and an optional exponent.
    The value is the exact one of the literal. *)
Definition float (tok : string) : result float64 :=
  let '(neg, s) := sign tok in
  let low := lowercase s in
  if String.eqb low "inf" || String.eqb low "infinity" then Ok (Inf neg)
  else if String.eqb low "nan" then Ok NaN
  else
    let '(ip, ni, s1) := digits 0 O s in
    let '(m, nf, s2) :=
      match s1 with
      | String "." s1' => digits ip O s1'
      | _ => (ip, O, s1)
      end in
    match (ni + nf)%nat, exponent s2 with
    | S _, Some e => Ok (Fin (Qred (scale10 (signed neg m) (e - Z.of_nat nf))))
    | _, _ => Raise ValueError
    end.

End Py.

(** ** Vectors and matrices with three rows *)

Definition vec3 (A : Type) : Type := (A * A * A)%type.
Definition mat33 (A : Type) : Type := vec3 (vec3 A).

Definition map3 {A B : Type} (f : A → B) (v : vec3 A) : vec3 B :=
  let '(x, y, z) := v in (f x, f y, f z).

Definition zip3 {A B C : Type} (f : A → B → C) (u : vec3 A) (v : vec3 B) : vec3 C :=
  let '(x, y, z) := u in
  let '(x', y', z') := v in (f x x', f y y', f z z').

(** [m.T] *)
Definition transpose {A : Type} (m : mat33 A) : mat33 A :=
  let '((a, b, c), (d, e, f), (g, h, i)) := m in
  ((a, d, g), (b, e, h), (c, f, i)).

Definition coords {A : Type} (v : vec3 A) : list A :=
  let '(x, y, z) := v in [x; y; z].

(** [a[i]] on a list: an index past the end raises. *)
Definition getitem {A : Type} (l : list A) (i : nat) : result A :=
  match l !! i with
  | Some x => Ok x
  | None => Raise IndexError
  end.

(** [a[i] = x] on an array: an index past the end raises. *)
Definition setitem {A : Type} (l : list A) (i : nat) (x : A) : result (list A) :=
  if decide (i < length l)%nat then Ok (<[i:=x]> l) else Raise IndexError.

(** [a.min(axis=0)] on an array of shape (n, 3): numpy refuses to reduce
    an array without rows. *)
Definition min_axis0 (a : list (vec3 float64)) : result (vec3 float64) :=
  match a with
  | [] => Raise ValueError
  | r :: rs => Ok (foldl (zip3 Float64.min) r rs)
  end.

(** [a.sum(axis=0)] on an array of shape (n, 3, 3). *)
Definition sum_axis0 (a : list (mat33 float64)) : mat33 float64 :=
  let zero : vec3 float64 := (Fin 0, Fin 0, Fin 0) in
  foldl (zip3 (zip3 Float64.add)) (zero, zero, zero) a.

(** ** Symmetry operations *)

(** Modelled from the spec: [SymmOp] and [SymmOp.rotate_k] of
    abipy.core.symmetries, which is not among the sources.  The mesh
    inference applies "every symmetry rotation (without wrapping the result
    into the canonical cell)" to a q-point; an operation is its integer
    rotation matrix in reduced reciprocal coordinates, and the rotation is
    the product of the matrix with the vector in double precision. *)
Definition SymmOp : Type := mat33 Z.

Definition identity : SymmOp := ((1, 0, 0), (0, 1, 0), (0, 0, 1)).

Definition dot (r : vec3 Z) (q : vec3 float64) : float64 :=
  let '(a, b, c) := r in
  let '(x, y, z) := q in
  Float64.add (Float64.add (Float64.mul (of_Z a) x) (Float64.mul (of_Z b) y))
              (Float64.mul (of_Z c) z).

Definition rotate_k (op : SymmOp) (q : vec3 float64) : vec3 float64 :=
  map3 (fun r => dot r q) op.

(** ** class DdbFile *)

Module DdbFile.
Import Py.

(** *** _parse_header: the scan of the lines *)

(** [keyvals]: the keys in the order of the file, each with the values
    accumulated so far. *)
Definition keyvals : Type := list (string * list num).

Definition sentinels : list string :=
  [ "Description of the potentials (KB energies)"%string;
    "No information on the potentials yet"%string ].

(** [parse = float if "." in tok else int] *)
Definition parse_of (tok : string) : string → result num :=
  if contains "." tok
  then fun t => PyFloat <$> float t
  else fun t => PyInt <$> int t.

(** [try: body  except ValueError: handler] *)
Definition try_except_ValueError {A : Type} (body handler : result A) : result A :=
  match body with
  | Raise ValueError => handler
  | r => r
  end.

(** The body of the [except ValueError] clause: the line opens a key. *)
Definition new_key (kvs : keyvals) (tokens : list string) : result keyvals :=
  match tokens with
  | [] => Raise IndexError
  | key :: tokens' =>
      match tokens' with
      | [] => Raise IndexError
      | t :: _ =>
          vals ← map_result (parse_of t) tokens';
          Ok (kvs ++ [(key, vals)])
      end
  end.

(** The body of the [try] clause: the line continues the last key.  The
    target [keyvals[-1][1].extend] is evaluated before its argument. *)
Definition continuation (kvs : keyvals) (tokens : list string) : result keyvals :=
  match tokens with
  | [] => Raise IndexError
  | t :: _ =>
      _ ← float t;
      match last kvs with
      | None => Raise IndexError
      | Some (key, vals) =>
          more ← map_result (parse_of t) tokens;
          Ok (removelast kvs ++ [(key, vals ++ more)])
      end
  end.

(** Lines 90-101: a line of the header proper. *)
Definition header_line (kvs : keyvals) (line : string) : result keyvals :=
  let line := replace "D-" "E-" (replace "D+" "E+" line) in
  let tokens := split line in
  try_except_ValueError (continuation kvs tokens) (new_key kvs tokens).

(** [int(line.split()[-1])] *)
Definition version_of (line : string) : result Z :=
  match last (split line) with
  | None => Raise IndexError
  | Some tok => int tok
  end.

(** The [for] loop of lines 75-101 from line number [i] on; [version] is
    [None] as long as the local variable is unbound. *)
Fixpoint header_loop (i : nat) (lines : list string)
    (version : option Z) (kvs : keyvals) : result (option Z * keyvals) :=
  match lines with
  | [] => Ok (version, kvs)
  | raw :: rest =>
      let line := strip raw in
      if String.eqb line "" then header_loop (S i) rest version kvs
      else
        version' ← (if contains "Version" line
                    then Some <$> version_of line
                    else Ok version);
        if bool_decide (line ∈ sentinels) then Ok (version', kvs)
        else
          kvs' ← (if (6 <=? i)%nat then header_line kvs line else Ok kvs);
          header_loop (S i) rest version' kvs'
  end.

(** *** _parse_header: the header and its arrays *)

Inductive dtype : Type := np_double | np_int.

Section Header.
(** numpy's arrays, with [np.reshape(np.array(v, dtype=d), shape)] and
    [np.array([s.T for s in a])].  What they accept (a shape given by
    a float, a ragged list) depends on the version of numpy; the
    header parser is embedded for any behaviour of theirs. *)
Variable ndarray : Type.

Inductive hval : Type :=
  | HNum (n : num)
  | HList (l : list num)
  | HArr (a : ndarray).

Variable np_reshape : hval → dtype → list hval → result ndarray.
Variable np_transpose_each : hval → result ndarray.

(** [if len(value) == 1: value = value[0]] *)
Definition collapse (value : list num) : hval :=
  match value with
  | [v] => HNum v
  | _ => HList value
  end.

(** [h.name] on an [AttrDict] *)
Definition getattr (h : gmap string hval) (name : string) : result hval :=
  match h !! name with
  | Some v => Ok v
  | None => Raise (AttributeError name)
  end.

(** [h[k]] *)
Definition getkey (h : gmap string hval) (k : string) : result hval :=
  match h !! k with
  | Some v => Ok v
  | None => Raise (KeyError k)
  end.

Definition three : hval := HNum (PyInt 3).

(** Lines 120-121 for one entry of [arrays]. *)
Definition reshape_entry (h : gmap string hval)
    (entry : string * (list hval * dtype)) : result (gmap string hval) :=
  let '(k, (shape, dt)) := entry in
  v ← getkey h k;
  a ← np_reshape v dt shape;
  Ok (<[k := HArr a]> h).

Fixpoint reshape_all (h : gmap string hval)
    (arrays : list (string * (list hval * dtype))) : result (gmap string hval) :=
  match arrays with
  | [] => Ok h
  | entry :: arrays' => h' ← reshape_entry h entry; reshape_all h' arrays'
  end.

(** Lines 73-126.  The entries of [arrays] are visited in the order of
    the literal; the order of a Python 2 dict only decides which
    exception comes first when several entries fail. *)
Definition _parse_header (lines : list string) : result (gmap string hval) :=
  '(version, kvs) ← header_loop 0 lines None [];
  version ← match version with
            | Some v => Ok v
            | None => Raise (UnboundLocalError "version")
            end;
  let h := foldl (fun h '(key, value) => <[key := collapse value]> h)
                 {[ "version"%string := HNum (PyInt version) ]} kvs in
  nkpt ← getattr h "nkpt";
  nsym ← getattr h "nsym";
  natom ← getattr h "natom";
  h ← reshape_all h
        [ ("kpt"%string, ([nkpt; three], np_double));
          ("rprim"%string, ([three; three], np_double));
          ("symrel"%string, ([nsym; three; three], np_int));
          ("tnons"%string, ([nsym; three], np_double));
          ("xred"%string, ([natom; three], np_double));
          ("znucl"%string, ([HNum (PyInt (-1))], np_int)) ];
  symrel ← getattr h "symrel";
  s ← np_transpose_each symrel;
  Ok (<["symrel"%string := HArr s]> h).

End Header.
Arguments HNum {ndarray} n.
Arguments HList {ndarray} l.
Arguments HArr {ndarray} a.

(** *** _read_qpoints *)

(** Lines 139-142: one line of the file, with the texts collected so far
    and the set of the lines already seen. *)
Definition qpt_line (st : list string * gset string) (raw : string)
    : list string * gset string :=
  let '(tokens, seen) := st in
  let line := strip raw in
  if startswith "qpt" line && negb (bool_decide (line ∈ seen))
  then (tokens ++ [replace "qpt" "" line], {[ line ]} ∪ seen)
  else st.

(** The trimmed lines that pass the test [line.startswith("qpt")] of line
    140, in the order of the file. *)
Definition marker_texts (lines : list string) : list string :=
  filter (fun text => startswith "qpt" text = true) (strip <$> lines).

(** The [for] loop of lines 138-142. *)
Definition qpt_scan (lines : list string) : list string * gset string :=
  foldl qpt_line ([], ∅) lines.

(** Lines 146-148 for one text: [nums[:3]] and [nums[3]]. *)
Definition qpt_numbers (tok : string) : result (list float64 * float64) :=
  nums ← map_result float (split tok);
  w ← getitem nums 3;
  Ok (take 3 nums, w).

(** [np.reshape(rows, (-1, 3))]: the values of the rows in sequence, cut
    into triples; a number of values that 3 does not divide is refused. *)
Fixpoint triples (xs : list float64) : result (list (vec3 float64)) :=
  match xs with
  | [] => Ok []
  | x :: y :: z :: xs' => ts ← triples xs'; Ok ((x, y, z) :: ts)
  | _ => Raise ValueError
  end.

Definition reshape_rows3 (rows : list (list float64)) : result (list (vec3 float64)) :=
  triples (concat rows).

Definition _read_qpoints (lines : list string) : result (list (vec3 float64)) :=
  let '(tokens, seen) := qpt_scan lines in
  parsed ← map_result qpt_numbers tokens;
  let qpoints := fst <$> parsed in
  let weights := snd <$> parsed in
  reshape_rows3 qpoints.

(** *** guessed_ngqpt *)

(** [q[q == 0] = np.inf] *)
Definition zeros_to_inf (q : vec3 float64) : vec3 float64 :=
  map3 (fun x => if is_zero x then Inf false else x) q.

(** [a[a == 0] = 1] *)
Definition zeros_to_one (a : vec3 float64) : vec3 float64 :=
  map3 (fun x => if is_zero x then Fin 1 else x) a.

(** Lines 180-185: the union of the stars of the q-points. *)
Definition stars (spacegroup : list SymmOp) (qpoints : list (vec3 float64))
    : list (vec3 float64) :=
  qpoint ← qpoints; op ← spacegroup; [rotate_k op qpoint].

(** Lines 193-194 *)
Definition smalls_of (all_qpoints : list (vec3 float64)) : result (vec3 float64) :=
  smalls ← min_axis0 (map3 Float64.abs <$> all_qpoints);
  Ok (zeros_to_one smalls).

(** Lines 195-196 *)
Definition ngqpt_of (smalls : vec3 float64) : vec3 float64 :=
  zeros_to_one (map3 (fun s => rint (inv s)) smalls).

Definition guessed_ngqpt (spacegroup : list SymmOp) (qpoints : list (vec3 float64))
    : result (vec3 Z) :=
  let all_qpoints := stars spacegroup qpoints in
  let all_qpoints := zeros_to_inf <$> all_qpoints in
  smalls ← smalls_of all_qpoints;
  let ngqpt := ngqpt_of smalls in
  Ok (map3 to_int64 ngqpt).

(** *** The header of line 106 *)

(** The dictionary [h] of lines 103-106, before the arrays are reshaped. *)
Definition flat_header {ndarray : Type} (version : Z) (kvs : keyvals)
    : gmap string (hval ndarray) :=
  foldl (fun h '(key, value) => <[key := collapse ndarray value]> h)
        {[ "version"%string := HNum (PyInt version) ]} kvs.

(** The keys of [arrays], lines 111-118. *)
Definition array_names : list string :=
  [ "kpt"; "rprim"; "symrel"; "tnons"; "xred"; "znucl" ]%string.

(** *** params *)

Definition param_names : list string :=
  [ "nkpt"; "nsppol"; "ecut"; "tsmear"; "ixc" ]%string.

(** [{k: v for k, v in self.header.items() if k in (...)}] *)
Definition params {ndarray : Type} (header : gmap string (hval ndarray))
    : gmap string (hval ndarray) :=
  filter (fun kv => kv.1 ∈ param_names) header.

(** *** qindex and anaget_phmodes_at_qpoint *)

(** The argument [qpoint]: an integer or a q-point, given by its reduced
    coordinates. *)
Inductive qpoint_arg : Type :=
  | QInt (i : Z)
  | QPoint (q : vec3 float64).

(** [try: body  except: raise exc] *)
Definition try_except_all {A : Type} (body : result A) (exc : exception) : result A :=
  match body with
  | Ok a => Ok a
  | Raise _ => Raise exc
  end.

Section Qpoints.
(** [KpointList.index] of abipy.core.kpoints, which is not among the
    sources: the position of a q-point in the list, or an exception. *)
Variable KpointList_index : list (vec3 float64) → vec3 float64 → result Z.

Definition qindex (qpoints : list (vec3 float64)) (qpoint : qpoint_arg) : result Z :=
  match qpoint with
  | QInt i => Ok i
  | QPoint q => KpointList_index qpoints q
  end.

(** Lines 221-231 of [anaget_phmodes_at_qpoint]: the q-point that is
    handed to the input of anaddb.  What follows builds and runs the
    task. *)
Definition phmodes_qpoint (qpoints : list (vec3 float64)) (qpoint : option qpoint_arg)
    : result qpoint_arg :=
  qpoint ← match qpoint with
           | None =>
               q ← getitem qpoints 0;
               if decide (length qpoints ≠ 1%nat) then Raise ValueError
               else Ok (QPoint q)
           | Some a => Ok a
           end;
  _ ← try_except_all (qindex qpoints qpoint) ValueError;
  Ok qpoint.

End Qpoints.

End DdbFile.

(** ** class Becs *)

Module Becs.

(** A site of the structure: the symbol of the species and the reduced
    coordinates.  [len(structure)] is the number of sites. *)
Record PeriodicSite : Type := {
  specie : string;
  frac_coords : vec3 float64;
}.

Definition Structure : Type := list PeriodicSite.

(** The attributes [_structure] and [becs]. *)
Record t : Type := {
  _structure : Structure;
  becs : list (mat33 float64);
}.

(** [np.empty((n, 3, 3))]: an array that is not initialised; [junk]
    gives what the memory happens to hold. *)
Definition np_empty (junk : nat → mat33 float64) (n : nat) : list (mat33 float64) :=
  junk <$> seq 0 n.

(** [if order == "f": mat = mat.T] *)
Definition layout (order : string) (mat : mat33 float64) : mat33 float64 :=
  if String.eqb order "f" then transpose mat else mat.

(** Lines 403-405: one turn of the loop. *)
Definition store (becs_arr : list (mat33 float64)) (order : string)
    (acc : result (list (mat33 float64))) (i : nat) : result (list (mat33 float64)) :=
  becs ← acc;
  mat ← getitem becs_arr i;
  let mat := layout order mat in
  setitem becs i mat.

Definition __init__ (junk : nat → mat33 float64)
    (becs_arr : list (mat33 float64)) (structure : Structure) (order : string)
    : result t :=
  if decide (length becs_arr = length structure) then
    let empty := np_empty junk (length structure) in
    becs ← foldl (store becs_arr order) (Ok empty) (seq 0 (length becs_arr));
    Ok {| _structure := structure; becs := becs |}
  else Raise AssertionError.

(** *** check_sumrule *)

Inductive value : Type :=
  | VBecs (self : t)
  | VArray (a : mat33 float64)
  | VGlobal (name : string)
  | VBuiltin (name : string).

(** What [print] received. *)
Inductive printed : Type :=
  | PStr (s : string)
  | PValue (v : value).

(** The names bound at the top level of the module. *)
Definition module_globals : list string :=
  [ "print_function"; "division"; "unicode_literals"; "os"; "tempfile"; "np";
    "AttrDict"; "lazy_property"; "AnaddbTask"; "TaskManager"; "TextFile";
    "Has_Structure"; "SpaceGroup"; "Structure"; "KpointList"; "Tensor";
    "ETSF_Reader"; "AnaddbInput"; "logging"; "logger"; "TaskException";
    "DdbFile"; "Becs" ]%string.

(** The functions, constants and exception classes of the builtins module
    of Python 2.7. *)
Definition builtins : list string :=
  [ "abs"; "all"; "any"; "apply"; "basestring"; "bin"; "bool"; "buffer";
    "bytearray"; "bytes"; "callable"; "chr"; "classmethod"; "cmp"; "coerce";
    "compile"; "complex"; "delattr"; "dict"; "dir"; "divmod"; "enumerate";
    "eval"; "execfile"; "file"; "filter"; "float"; "format"; "frozenset";
    "getattr"; "globals"; "hasattr"; "hash"; "help"; "hex"; "id"; "input";
    "int"; "intern"; "isinstance"; "issubclass"; "iter"; "len"; "list";
    "locals"; "long"; "map"; "max"; "memoryview"; "min"; "next"; "object";
    "oct"; "open"; "ord"; "pow"; "print"; "property"; "range"; "raw_input";
    "reduce"; "reload"; "repr"; "reversed"; "round"; "set"; "setattr";
    "slice"; "sorted"; "staticmethod"; "str"; "sum"; "super"; "tuple";
    "type"; "unichr"; "unicode"; "vars"; "xrange"; "zip"; "__import__";
    "True"; "False"; "None"; "Ellipsis"; "NotImplemented"; "__debug__";
    "BaseException"; "Exception"; "StandardError"; "ArithmeticError";
    "AssertionError"; "AttributeError"; "BufferError"; "EOFError";
    "EnvironmentError"; "FloatingPointError"; "GeneratorExit"; "IOError";
    "ImportError"; "IndentationError"; "IndexError"; "KeyError";
    "KeyboardInterrupt"; "LookupError"; "MemoryError"; "NameError";
    "NotImplementedError"; "OSError"; "OverflowError"; "ReferenceError";
    "RuntimeError"; "StopIteration"; "SyntaxError"; "SystemError";
    "SystemExit"; "TabError"; "TypeError"; "UnboundLocalError";
    "UnicodeDecodeError"; "UnicodeEncodeError"; "UnicodeError";
    "UnicodeTranslateError"; "ValueError"; "ZeroDivisionError"; "Warning";
    "UserWarning"; "DeprecationWarning"; "PendingDeprecationWarning";
    "SyntaxWarning"; "RuntimeWarning"; "FutureWarning"; "ImportWarning";
    "UnicodeWarning"; "BytesWarning" ]%string.

(** The names [check_sumrule] binds: its parameter and the target of its
    assignment.  Every other name of its body is a global one. *)
Definition local_names : list string := [ "self"; "becs_atomsum" ]%string.

(** The value of a name in the body of [check_sumrule]. *)
Definition load (frame : gmap string value) (name : string) : result value :=
  if bool_decide (name ∈ local_names) then
    match frame !! name with
    | Some v => Ok v
    | None => Raise (UnboundLocalError name)
    end
  else if bool_decide (name ∈ module_globals) then Ok (VGlobal name)
  else if bool_decide (name ∈ builtins) then Ok (VBuiltin name)
  else Raise (NameError name).

(** Lines 431-434.  The result is what was printed and how the call
    ended. *)
Definition check_sumrule (self : t) : list printed * result unit :=
  let frame : gmap string value := {[ "self"%string := VBecs self ]} in
  let frame := <[ "becs_atomsum"%string := VArray (sum_axis0 (becs self)) ]> frame in
  let out := [ PStr "Born effective charge neutrality sum-rule:" ] in
  match load frame "bec_atomsum" with
  | Ok v => (out ++ [ PValue v ], Ok ())
  | Raise e => (out, Raise e)
  end.

(** *** to_string *)

Definition newline : string := String "010"%char EmptyString.

(** [sep.join(lines)] *)
Fixpoint join (sep : string) (lines : list string) : string :=
  match lines with
  | [] => EmptyString
  | l :: lines' =>
      match lines' with
      | [] => l
      | _ => String.append l (String.append sep (join sep lines'))
      end
  end.

(** [zip(xs, ys)] of Python 2: the pairs up to the end of the shorter
    list. *)
Fixpoint zip_lists {A B : Type} (xs : list A) (ys : list B) : list (A * B) :=
  match xs, ys with
  | x :: xs', y :: ys' => (x, y) :: zip_lists xs' ys'
  | _, _ => []
  end.

Section ToString.
(** [str] of a structure, of a site and of a 3x3 array: the texts that
    pymatgen and numpy print. *)
Variable str_structure : Structure → string.
Variable str_site : PeriodicSite → string.
Variable str_array : mat33 float64 → string.

(** The list [lines] of lines 418-427. *)
Definition to_lines (self : t) : list string :=
  [ str_structure (_structure self); EmptyString ] ++
  ('(site, bec) ← zip_lists (_structure self) (becs self);
   [ String.append "bec at site: " (str_site site); str_array bec; EmptyString ]).

Definition to_string (self : t) : string := join newline (to_lines self).

Definition __repr__ (self : t) : string := to_string self.
Definition __str__ (self : t) : string := to_string self.

End ToString.

End Becs.

(** ** The wording of the specification *)

Module Spec.

(** "its first token (after trimming) is an exact marker string" *)
Definition first_token_is_marker (line : string) : bool :=
  match Py.split (Py.strip line) with
  | tok :: _ => String.eqb tok "qpt"
  | [] => false
  end.

(** "if the same textual line recurs verbatim, it is recorded once ...
    preserving first-seen order": the distinct texts, each at the place
    of its first occurrence. *)
Fixpoint first_seen (texts : list string) : list string :=
  match texts with
  | [] => []
  | x :: texts' => x :: filter (fun y => y ≠ x) (first_seen texts')
  end.

(** "Parse each unique candidate into four numbers: a 3-vector and a
    trailing weight (the weight is parsed but discarded)" *)
Definition qpoint_of_text (text : string) : result (vec3 float64) :=
  nums ← map_result Py.float (Py.split (Py.replace "qpt" "" text));
  match nums with
  | x :: y :: z :: w :: _ => Ok (x, y, z)
  | _ => Raise IndexError
  end.

(** "every component of the returned MeshGuess is an integer greater than
    or equal to 1" *)
Definition at_least_one (mesh : vec3 Z) : Prop :=
  Forall (fun n => 1 ≤ n) (coords mesh).

(** A coordinate the mesh inference can digest: not NaN and, unless it
    is zero or infinite, of magnitude 2^-62 at least, so that its
    reciprocal fits the 64-bit integer. *)
Definition tame (x : float64) : bool :=
  match x with
  | NaN => false
  | Inf _ => true
  | Fin q => Qeq_bool q 0 || Qle_bool (1 # 2 ^ 62) (Qabs q)
  end.

End Spec.

(** ** Sample inputs *)

Module Sample.

Definition quarter : vec3 float64 := (Fin (1 # 4), Fin 0, Fin 0).
Definition nan_point : vec3 float64 := (NaN, Fin 0, Fin 0).
(** 2^-64, the value of the literal 5.421010862427522e-20 *)
Definition tiny_point : vec3 float64 := (Fin (1 # 2 ^ 64), Fin 0, Fin 0).

(** Six lines without a version declaration, then header lines. *)
Definition no_version_file : list string :=
  [ "**** DATABASE ****"; "first"; "second"; "third"; "fourth"; "fifth";
    "  natom         1"; "  kpt  0.0D+00  0.0D+00  0.0D+00" ]%string.

(** The key [a] receives 1.5 from its own line and 2 from the next. *)
Definition mixed_file : list string :=
  [ "**** DATABASE ****"; "+DDB, Version number    100401"; "first";
    "second"; "third"; "fourth"; "a 1.5"; "2" ]%string.

Definition ones : mat33 float64 :=
  ((Fin 1, Fin 2, Fin 3), (Fin 4, Fin 5, Fin 6), (Fin 7, Fin 8, Fin 9)).
Definition junk : nat → mat33 float64 :=
  fun _ => ((NaN, NaN, NaN), (NaN, NaN, NaN), (NaN, NaN, NaN)).
Definition site : Becs.PeriodicSite :=
  {| Becs.specie := "Si"; Becs.frac_coords := (Fin 0, Fin 0, Fin 0) |}.

End Sample.

(** ** Predicates of the proofs *)

(** Lines 144-150 of [_read_qpoints] on the collected texts. *)
Definition parse_rows (tokens : list string) : result (list (vec3 float64)) :=
  parsed ← map_result DdbFile.qpt_numbers tokens;
  DdbFile.reshape_rows3 (fst <$> parsed).

(** The magnitudes that remain after the zeros were replaced: an infinity
    or a finite value of 2^-62 at least. *)
Definition large (x : float64) : Prop :=
  x = Inf false ∨ ∃ q, x = Fin q ∧ (1 # 2 ^ 62 <= q)%Q.

Definition vall {A : Type} (P : A → Prop) (v : vec3 A) : Prop :=
  let '(x, y, z) := v in P x ∧ P y ∧ P z.

(** The three directions. *)
Inductive axis : Type := axis1 | axis2 | axis3.

Definition proj {A : Type} (a : axis) (v : vec3 A) : A :=
  let '(x, y, z) := v in
  match a with axis1 => x | axis2 => y | axis3 => z end.

(** A finite coordinate that is a multiple of [1/n]. *)
Definition on_grid (n : positive) (c : float64) : bool :=
  match c with
  | Fin q =>
      Qeq_bool (q * inject_Z (Z.pos n))
               (inject_Z (Qfloor (q * inject_Z (Z.pos n))))
  | _ => false
  end.

(** A coordinate of magnitude [1/n]. *)
Definition grid_step (n : positive) (c : float64) : bool :=
  match c with
  | Fin q => Qeq_bool (Qabs q) (1 # n)
  | _ => false
  end.

(** The values of one direction after the zeros were replaced, for a
    grid of [n] divisions: an infinity or a finite value of [1/n] at
    least. *)
Definition above_step (n : positive) (x : float64) : Prop :=
  x = Inf false ∨ ∃ q, x = Fin q ∧ (1 # n <= q)%Q.

Definition at_step (n : positive) (x : float64) : Prop :=
  ∃ q, x = Fin q ∧ (q == 1 # n)%Q.

(** The marker texts of what is appended to a file occur in the file. *)
Definition known_texts (lines more : list string) : Prop :=
  ∀ text, text ∈ DdbFile.marker_texts more → text ∈ DdbFile.marker_texts lines.

(** An ordinary line of the preamble: no version declaration, not the end
    of the header. *)
Definition ordinary (raw : string) : Prop :=
  Py.contains "Version" (Py.strip raw) = false ∧ Py.strip raw ∉ DdbFile.sentinels.

(** Two lines of the preamble that the scan treats alike: the same line,
    or two ordinary ones. *)
Definition alike (raw raw' : string) : Prop :=
  raw = raw' ∨ (ordinary raw ∧ ordinary raw').

(** A text of blanks, and a line with blanks added at its ends. *)
Fixpoint blank (s : string) : bool :=
  match s with
  | EmptyString => true
  | String c s' => Py.isspace c && blank s'
  end.

Definition padded (line line' : string) : Prop :=
  ∃ ws ws', blank ws = true ∧ blank ws' = true ∧
            line' = String.append ws (String.append line ws').

(** The row of a q-point all of whose coordinates are zero, after line
    189. *)
Definition top : vec3 float64 := (Inf false, Inf false, Inf false).

(** Lines 188-199 on the coordinates of one direction. *)
Definition axis_mesh (column : list float64) : result Z :=
  match (fun c => Float64.abs (if is_zero c then Inf false else c)) <$> column with
  | [] => Raise ValueError
  | x :: xs =>
      let small := foldl Float64.min x xs in
      let small := if is_zero small then Fin 1 else small in
      let n := rint (inv small) in
      Ok (to_int64 (if is_zero n then Fin 1 else n))
  end.

(** Two doubles with the same value: the finite ones are kept as
    fractions, which need not be in lowest terms. *)
Definition feq (x y : float64) : Prop :=
  match x, y with
  | NaN, NaN => True
  | Inf a, Inf b => a = b
  | Fin p, Fin q => (p == q)%Q
  | _, _ => False
  end.

(** Sample inputs of the further properties. *)
Module More.

Definition preamble : list string :=
  [ "**** DATABASE ****"; "+DDB, Version number    100401"; "first";
    "second"; "third"; "fourth" ]%string.

Definition header_lines : list string :=
  [ "  natom         1"; "  nkpt          1"; "  nsym          1";
    "  ixc           7"; "  ecut  0.10D+02";
    "  kpt  0.0D+00  0.0D+00  0.0D+00";
    "  rprim  1.0  0.0  0.0"; "  0.0  1.0  0.0"; "  0.0  0.0  1.0";
    "  symrel  1 0 0  0 1 0  0 0 1"; "  tnons  0.0 0.0 0.0";
    "  xred  0.0 0.0 0.0"; "  znucl  14.0" ]%string.

Definition sentinel : string := " No information on the potentials yet".

Definition np_reshape_unit
    : DdbFile.hval unit → DdbFile.dtype → list (DdbFile.hval unit) → result unit :=
  fun _ _ _ => Ok ().
Definition np_transpose_unit : DdbFile.hval unit → result unit := fun _ => Ok ().

Definition qpt_lines : list string :=
  [ " qpt  2.5E-01  0.0  0.0   1.0"; "other"; " qpt  5.0E-01  0.0  0.0   1.0" ]%string.

(** The points 0, 1/4, 1/2, -1/4 of a grid of four along the first
    direction. *)
Definition grid4 : list (vec3 float64) :=
  [ (Fin 0, Fin 0, Fin 0); (Fin (1 # 4), Fin 0, Fin 0);
    (Fin (1 # 2), Fin 0, Fin 0); (Fin (-1 # 4), Fin 0, Fin 0) ].

Definition inversion : SymmOp := ((-1, 0, 0), (0, -1, 0), (0, 0, -1)).

(** The position of a q-point that is equal, coordinate by coordinate,
    to one of the list. *)
Definition feq_bool (x y : float64) : bool :=
  match x, y with
  | Fin p, Fin q => Qeq_bool p q
  | Inf a, Inf b => Bool.eqb a b
  | _, _ => false
  end.

Fixpoint find_qpoint (qpoints : list (vec3 float64)) (q : vec3 float64) : result Z :=
  match qpoints with
  | [] => Raise ValueError
  | p :: qpoints' =>
      let '(x, y, z) := p in
      let '(x', y', z') := q in
      if feq_bool x x' && feq_bool y y' && feq_bool z z' then Ok 0
      else Z.succ <$> find_qpoint qpoints' q
  end.

End More.

Ltac binds := cbn [mbind result_bind mret result_ret fmap result_fmap].

Ltac qle_bools :=
  repeat match goal with
         | |- context [Qle_bool ?p ?q] => destruct (Qle_bool p q) eqn:?
         end;
  repeat match goal with
         | H : Qle_bool _ _ = true |- _ => apply Qle_bool_iff in H
         | H : Qle_bool _ _ = false |- _ =>
             apply not_true_iff_false in H; rewrite Qle_bool_iff in H
         end.

(** * Properties *)

Import Py DdbFile.

(** ** Rounding and conversion *)

Lemma Qrint_nonneg (q : Q) : (0 <= q)%Q → 0 ≤ Qrint q.
Proof.
  intros Hq. unfold Qrint.
  assert (Hf : 0 ≤ Qfloor q).
  { change 0 with (Qfloor 0). by apply Qfloor_resp_le. }
  destruct (Qcompare _ _); [destruct (Z.even _)| |]; lia.
Qed.

Lemma Qrint_le (q : Q) (n : Z) : (q <= inject_Z n)%Q → Qrint q ≤ n.
Proof.
  intros Hq. unfold Qrint.
  assert (Hf : Qfloor q ≤ n).
  { rewrite <- (Qfloor_Z n). by apply Qfloor_resp_le. }
  assert (Hlt : (inject_Z (Qfloor q) < q)%Q → Qfloor q + 1 ≤ n).
  { intros H.
    assert (Hn : (inject_Z (Qfloor q) < inject_Z n)%Q) by (eapply Qlt_le_trans; eauto).
    rewrite <- Zlt_Qlt in Hn. lia. }
  destruct (Qcompare _ _) eqn:Hc.
  - apply Qeq_alt in Hc. destruct (Z.even _); [lia|]. apply Hlt. lra.
  - lia.
  - apply Qgt_alt in Hc. apply Hlt. lra.
Qed.

Lemma Qtrunc_inject_Z (z : Z) : Qtrunc (inject_Z z) = z.
Proof.
  unfold Qtrunc. destruct (Qle_bool 0 (inject_Z z)).
  - apply Qfloor_Z.
  - apply Qceiling_Z.
Qed.

Lemma to_int64_of_Z (z : Z) :
  int64_min ≤ z ≤ int64_max → to_int64 (of_Z z) = z.
Proof.
  intros [Hlo Hhi]. unfold to_int64, of_Z. cbv zeta. rewrite Qtrunc_inject_Z.
  apply Z.leb_le in Hlo, Hhi. by rewrite Hlo, Hhi.
Qed.

Lemma is_zero_of_Z (z : Z) : is_zero (of_Z z) = (z =? 0).
Proof.
  unfold is_zero, of_Z, Qeq_bool. simpl. rewrite Z.mul_1_r.
  destruct z; reflexivity.
Qed.

(** ** The mesh guess *)

(** C1.  With the identity as the only symmetry operation and the single
    q-point (0.25, 0, 0), [guessed_ngqpt] returns (4, 1, 1).  The two zero
    coordinates become infinities, so [smalls] is (0.25, inf, inf); the
    rounded reciprocals are (4, 0, 0), 4 being round(1 / 0.25), and the two
    zeros are then replaced by 1. *)
Theorem guessed_ngqpt_quarter :
  zeros_to_inf <$> stars [identity] [Sample.quarter] = [(Fin (1 # 4), Inf false, Inf false)] ∧
  smalls_of [(Fin (1 # 4), Inf false, Inf false)] = Ok (Fin (1 # 4), Inf false, Inf false) ∧
  map3 (fun s => rint (inv s)) (Fin (1 # 4), Inf false, Inf false) = (Fin 4, Fin 0, Fin 0) ∧
  Qrint (/ (1 # 4)) = 4 ∧
  ngqpt_of (Fin (1 # 4), Inf false, Inf false) = (Fin 4, Fin 1, Fin 1) ∧
  guessed_ngqpt [identity] [Sample.quarter] = Ok (4, 1, 1).
Proof. repeat split; vm_compute; reflexivity. Qed.

Lemma stars_nil (spacegroup : list SymmOp) : stars spacegroup [] = [].
Proof. reflexivity. Qed.

(** C2.  With an empty list of q-points [guessed_ngqpt] raises and returns
    no mesh, whatever the symmetry operations are: the array of the stars
    has no rows and numpy refuses to take its minimum.  The exception is
    numpy's [ValueError]; it is the failure the specification names
    InvalidInputError. *)
Theorem guessed_ngqpt_no_qpoints (spacegroup : list SymmOp) :
  guessed_ngqpt spacegroup [] = Raise ValueError ∧
  ∀ mesh, guessed_ngqpt spacegroup [] ≠ Ok mesh.
Proof.
  assert (H : guessed_ngqpt spacegroup [] = Raise ValueError).
  { unfold guessed_ngqpt. rewrite stars_nil. reflexivity. }
  split; [exact H | intros mesh; rewrite H; discriminate].
Qed.

Lemma large_abs_zeros_to_inf (c : float64) :
  Spec.tame c = true → large (Float64.abs (if is_zero c then Inf false else c)).
Proof.
  destruct c as [|neg|q]; simpl; [done | by left |].
  intros H. destruct (Qeq_bool q 0); [by left|].
  right. exists (Qabs q). split; [done|]. by apply Qle_bool_iff.
Qed.

Lemma large_min (x y : float64) : large x → large y → large (Float64.min x y).
Proof.
  intros [->|(p & -> & Hp)] [->|(q & -> & Hq)]; simpl.
  - by left.
  - right. by exists q.
  - right. by exists p.
  - destruct (Qle_bool p q); right; eauto.
Qed.

Lemma large_not_zero (x : float64) : large x → is_zero x = false.
Proof.
  intros [->|(q & -> & Hq)]; [done|]. simpl.
  destruct (Qeq_bool q 0) eqn:E; [|done].
  apply Qeq_bool_iff in E. rewrite E in Hq. by vm_compute in Hq.
Qed.

Lemma vall_zip3_min (u v : vec3 float64) :
  vall large u → vall large v → vall large (zip3 Float64.min u v).
Proof.
  destruct u as [[x y] z], v as [[x' y'] z']. simpl.
  intros (? & ? & ?) (? & ? & ?). auto using large_min.
Qed.

Lemma vall_foldl_min (rs : list (vec3 float64)) (r : vec3 float64) :
  vall large r → Forall (vall large) rs → vall large (foldl (zip3 Float64.min) r rs).
Proof.
  revert r. induction rs as [|r' rs IH]; intros r Hr Hrs; simpl; [done|].
  inversion_clear Hrs. apply IH; [by apply vall_zip3_min | done].
Qed.

(** One axis of lines 194-199. *)
Lemma axis_at_least_one (s : float64) :
  large s →
  1 ≤ to_int64 (let n := rint (inv (if is_zero s then Fin 1 else s)) in
                if is_zero n then Fin 1 else n).
Proof.
  intros Hs. rewrite (large_not_zero s Hs).
  destruct Hs as [->|(q & -> & Hq)].
  - vm_compute. discriminate.
  - assert (Hpos : (0 < q)%Q).
    { eapply Qlt_le_trans; [|exact Hq]. reflexivity. }
    unfold inv. destruct (Qeq_bool q 0) eqn:E.
    { apply Qeq_bool_iff in E. rewrite E in Hpos. by apply Qlt_irrefl in Hpos. }
    unfold rint. cbv zeta. rewrite is_zero_of_Z.
    assert (Hinv : (0 < / q)%Q) by by apply Qinv_lt_0_compat.
    assert (Hle : (/ q <= inject_Z (2 ^ 62))%Q).
    { apply Qle_shift_inv_r; [done|].
      apply Qle_trans with (inject_Z (2 ^ 62) * (1 # 2 ^ 62))%Q; [by vm_compute|].
      apply Qmult_le_l; [reflexivity | done]. }
    assert (H0 : 0 ≤ Qrint (Qred (/ q))).
    { apply Qrint_nonneg. rewrite Qred_correct. by apply Qlt_le_weak. }
    assert (H1 : Qrint (Qred (/ q)) ≤ 2 ^ 62).
    { apply Qrint_le. by rewrite Qred_correct. }
    destruct (Z.eqb_spec (Qrint (Qred (/ q))) 0) as [_|Hne].
    + vm_compute. discriminate.
    + rewrite to_int64_of_Z; [lia|]. unfold int64_min, int64_max. lia.
Qed.

Lemma stars_nonempty (spacegroup : list SymmOp) (qpoints : list (vec3 float64)) :
  spacegroup ≠ [] → qpoints ≠ [] → stars spacegroup qpoints ≠ [].
Proof.
  destruct spacegroup as [|op ops], qpoints as [|q qs]; try done.
Qed.

Lemma mesh_at_least_one (smalls : vec3 float64) :
  vall large smalls →
  ∃ a b c, map3 to_int64 (ngqpt_of (zeros_to_one smalls)) = (a, b, c) ∧
           1 ≤ a ∧ 1 ≤ b ∧ 1 ≤ c.
Proof.
  destruct smalls as [[x y] z]. intros (Hx & Hy & Hz).
  eexists _, _, _. split; [reflexivity|].
  repeat split.
  - pose proof (axis_at_least_one x Hx) as H. rewrite (large_not_zero x Hx) in *. exact H.
  - pose proof (axis_at_least_one y Hy) as H. rewrite (large_not_zero y Hy) in *. exact H.
  - pose proof (axis_at_least_one z Hz) as H. rewrite (large_not_zero z Hz) in *. exact H.
Qed.

Lemma rows_large (rows : list (vec3 float64)) :
  Forall (fun v => Forall (fun c => Spec.tame c = true) (coords v)) rows →
  Forall (vall large) (map3 Float64.abs <$> (zeros_to_inf <$> rows)).
Proof.
  intros H. rewrite <- list_fmap_compose. apply Forall_fmap.
  eapply Forall_impl; [exact H|]. intros [[x y] z] Hv. simpl in *.
  inversion_clear Hv as [|? ? Hx Hyz]. inversion_clear Hyz as [|? ? Hy Hz0].
  inversion_clear Hz0 as [|? ? Hz _].
  repeat split; by apply large_abs_zeros_to_inf.
Qed.

(** C10, as the code has it.  For a non-empty list of q-points and a
    non-empty set of symmetry operations, when no coordinate of the stars
    is NaN and none is closer to zero than 2^-62 without being zero,
    [guessed_ngqpt] returns a mesh and each of its three components is 1
    at least. *)
Theorem guessed_ngqpt_at_least_one (spacegroup : list SymmOp) (qpoints : list (vec3 float64)) :
  spacegroup ≠ [] → qpoints ≠ [] →
  Forall (fun v => Forall (fun c => Spec.tame c = true) (coords v)) (stars spacegroup qpoints) →
  ∃ mesh, guessed_ngqpt spacegroup qpoints = Ok mesh ∧ Spec.at_least_one mesh.
Proof.
  intros Hsg Hqs Htame. unfold guessed_ngqpt, smalls_of.
  pose proof (stars_nonempty _ _ Hsg Hqs) as Hne.
  pose proof (rows_large _ Htame) as Hrows.
  destruct (stars spacegroup qpoints) as [|r rs]; [done|].
  simpl in *. inversion_clear Hrows as [|? ? Hr Hrs].
  destruct (mesh_at_least_one _ (vall_foldl_min _ _ Hr Hrs)) as (a & b & c & -> & Ha & Hb & Hc).
  exists (a, b, c). split; [done|]. unfold Spec.at_least_one. simpl.
  repeat constructor; done.
Qed.

Lemma guessed_ngqpt_at_least_one_witness :
  ∃ mesh, guessed_ngqpt [identity] [Sample.quarter] = Ok mesh ∧ Spec.at_least_one mesh.
Proof.
  apply guessed_ngqpt_at_least_one.
  - discriminate.
  - discriminate.
  - vm_compute. repeat constructor.
Defined.

(** C10, as it is stated, fails: the claim allows any non-empty list of
    q-points on which the inference returns.  With the identity and the
    q-point (NaN, 0, 0) every product with NaN is NaN, the minimum, the
    reciprocal and the rounding keep it, neither guard applies, and the
    conversion to the integer type gives the smallest 64-bit integer on
    each axis. *)
Lemma guessed_ngqpt_nan_below_one :
  ¬ (∀ spacegroup qpoints mesh,
       qpoints ≠ [] → guessed_ngqpt spacegroup qpoints = Ok mesh → Spec.at_least_one mesh).
Proof.
  intros H.
  assert (Hrun : guessed_ngqpt [identity] [Sample.nan_point] =
                 Ok (int64_min, int64_min, int64_min)) by (vm_compute; reflexivity).
  specialize (H [identity] [Sample.nan_point] _ ltac:(discriminate) Hrun).
  unfold Spec.at_least_one in H. simpl in H. inversion_clear H as [|? ? H1 _].
  vm_compute in H1. by apply H1.
Qed.

(** The same happens without a NaN when a coordinate is so small that its
    reciprocal exceeds the 64-bit range: 2^-64 gives 2^64. *)
Example guessed_ngqpt_tiny :
  guessed_ngqpt [identity] [Sample.tiny_point] = Ok (int64_min, 1, 1).
Proof. vm_compute. reflexivity. Qed.

(** ** The q-point extractor *)

(** *** Strings *)

Lemma lstrip_head (s : string) :
  lstrip s = EmptyString ∨ ∃ c r, lstrip s = String c r ∧ isspace c = false.
Proof.
  induction s as [|c s IH]; simpl; [by left|].
  destruct (isspace c) eqn:E; [exact IH|]. right. by exists c, s.
Qed.

Lemma rstrip_head (c : ascii) (s : string) :
  isspace c = false → ∃ r, rstrip (String c s) = String c r.
Proof.
  intros E. simpl. rewrite E. destruct (rstrip s); eauto.
Qed.

Lemma strip_head (s : string) :
  strip s = EmptyString ∨ ∃ c r, strip s = String c r ∧ isspace c = false.
Proof.
  unfold strip. destruct (lstrip_head s) as [->|(c & r & -> & E)]; [by left|].
  right. destruct (rstrip_head c r E) as [r' ->]. by exists c, r'.
Qed.

Lemma prefix_cons (c : ascii) (t s : string) :
  String.prefix t s = true → String.prefix (String c t) (String c s) = true.
Proof. intros H. simpl. by destruct (Ascii.ascii_dec c c). Qed.

Lemma prefix_empty (s : string) : String.prefix EmptyString s = true.
Proof. by destruct s. Qed.

(** The first token of a text that begins with a non-blank character is a
    prefix of the text. *)
Lemma split_head_prefix (s : string) (t : string) (ts : list string) :
  starts_blank s = false → split s = t :: ts → String.prefix t s = true.
Proof.
  revert t ts. induction s as [|c s IH]; intros t ts Hb Hs; [done|].
  simpl in Hb. simpl in Hs. rewrite Hb in Hs.
  destruct (starts_blank s) eqn:Es.
  - injection Hs as <- _. apply prefix_cons, prefix_empty.
  - destruct (split s) as [|t' ts'] eqn:Et.
    + injection Hs as <- _. apply prefix_cons, prefix_empty.
    + injection Hs as <- _. apply prefix_cons. by eapply IH.
Qed.

Lemma first_token_startswith (line : string) :
  Spec.first_token_is_marker line = true → startswith "qpt" (strip line) = true.
Proof.
  unfold Spec.first_token_is_marker, startswith.
  destruct (split (strip line)) as [|t ts] eqn:Es; [done|].
  intros Ht. apply String.eqb_eq in Ht. subst t.
  destruct (strip_head line) as [E|(c & r & E & Hc)].
  - rewrite E in Es. done.
  - eapply split_head_prefix; [|exact Es]. by rewrite E.
Qed.

(** *** The distinct texts in the order of their first occurrence *)

Lemma elem_of_first_seen (texts : list string) (x : string) :
  x ∈ Spec.first_seen texts ↔ x ∈ texts.
Proof.
  induction texts as [|y texts IH]; simpl; [done|].
  rewrite !elem_of_cons, list_elem_of_filter, IH.
  destruct (decide (x = y)); naive_solver.
Qed.

Lemma NoDup_first_seen (texts : list string) : NoDup (Spec.first_seen texts).
Proof.
  induction texts as [|y texts IH]; simpl; [constructor|].
  constructor; [|by apply NoDup_filter].
  rewrite list_elem_of_filter. naive_solver.
Qed.

(** *** The scan of the q-point lines *)

Lemma filter_not_in_snoc (acc : list string) (x : string) (l : list string) :
  filter (fun y => y ∉ acc ++ [x]) l = filter (fun y => y ∉ acc) (filter (fun y => y ≠ x) l).
Proof.
  rewrite list_filter_filter. apply list_filter_iff. intros y.
  rewrite not_elem_of_app, list_elem_of_singleton. done.
Qed.

Lemma filter_not_in_absorb (acc : list string) (x : string) (l : list string) :
  x ∈ acc →
  filter (fun y => y ∉ acc) (filter (fun y => y ≠ x) l) = filter (fun y => y ∉ acc) l.
Proof.
  intros Hx. rewrite list_filter_filter. apply list_filter_iff. intros y.
  split; [naive_solver|]. intros Hy. split; [done|]. intros ->. done.
Qed.

Lemma filter_not_in_nil (l : list string) : filter (fun y => y ∉ []) l = l.
Proof.
  induction l as [|x l IH]; [done|].
  rewrite filter_cons_True by apply not_elem_of_nil. by rewrite IH.
Qed.

Lemma qpt_scan_from (lines : list string) (acc : list string) :
  foldl qpt_line (replace "qpt" "" <$> acc, list_to_set acc) lines =
  (replace "qpt" "" <$> (acc ++ filter (fun y => y ∉ acc) (Spec.first_seen (marker_texts lines))),
   list_to_set acc ∪ list_to_set (marker_texts lines)).
Proof.
  revert acc. induction lines as [|raw lines IH]; intros acc.
  - simpl. rewrite app_nil_r. f_equal. set_solver.
  - cbn [foldl]. unfold marker_texts. rewrite fmap_cons.
    fold (marker_texts lines). unfold qpt_line at 2.
    destruct (startswith "qpt" (strip raw)) eqn:Ep; cycle 1.
    { rewrite filter_cons_False by (by rewrite Ep). fold (marker_texts lines).
      cbn [andb]. apply IH. }
    rewrite filter_cons_True by done. fold (marker_texts lines).
    cbn [andb Spec.first_seen]. case_bool_decide as Hin.
    + rewrite elem_of_list_to_set in Hin. cbn [negb].
      rewrite IH. rewrite filter_cons_False by naive_solver.
      rewrite filter_not_in_absorb by done. f_equal. set_solver.
    + rewrite elem_of_list_to_set in Hin. cbn [negb].
      assert (Hst :
        ((replace "qpt" "" <$> acc) ++ [replace "qpt" "" (strip raw)],
         ({[strip raw]} ∪ list_to_set acc : gset string)) =
        (replace "qpt" "" <$> (acc ++ [strip raw]), list_to_set (acc ++ [strip raw]))).
      { f_equal; [by rewrite fmap_app | set_solver]. }
      rewrite Hst, IH. rewrite filter_cons_True by done.
      rewrite <- filter_not_in_snoc. rewrite <- app_assoc. f_equal. set_solver.
Qed.

Lemma qpt_scan_first_seen (lines : list string) :
  qpt_scan lines =
  (replace "qpt" "" <$> Spec.first_seen (marker_texts lines),
   list_to_set (marker_texts lines)).
Proof.
  unfold qpt_scan. change ([] : list string) with (replace "qpt" "" <$> ([] : list string)).
  change (∅ : gset string) with (list_to_set ([] : list string) : gset string).
  rewrite qpt_scan_from. f_equal.
  - f_equal. simpl. apply filter_not_in_nil.
  - set_solver.
Qed.

(** *** The numbers of the q-point lines *)

Lemma qpoint_of_text_Ok (text : string) (q : vec3 float64) :
  Spec.qpoint_of_text text = Ok q →
  ∃ w, qpt_numbers (replace "qpt" "" text) = Ok ([q.1.1; q.1.2; q.2], w).
Proof.
  unfold qpt_numbers, Spec.qpoint_of_text.
  destruct (map_result float _) as [nums|e]; [|done]. simpl.
  destruct nums as [|x [|y [|z [|w nums]]]]; try done.
  intros [= <-]. by exists w.
Qed.

Lemma qpoint_of_text_Raise (text : string) (e : exception) :
  Spec.qpoint_of_text text = Raise e → qpt_numbers (replace "qpt" "" text) = Raise e.
Proof.
  unfold qpt_numbers, Spec.qpoint_of_text.
  destruct (map_result float _) as [nums|e']; simpl; [|by intros [= ->]].
  destruct nums as [|x [|y [|z [|w nums]]]]; simpl; by intros [= <-].
Qed.

Lemma parse_rows_cons (text : string) (texts : list string) :
  parse_rows (replace "qpt" "" <$> (text :: texts)) =
  (q ← Spec.qpoint_of_text text; qs ← parse_rows (replace "qpt" "" <$> texts); Ok (q :: qs)).
Proof.
  unfold parse_rows. rewrite fmap_cons. cbn [map_result].
  destruct (Spec.qpoint_of_text text) as [[[x y] z]|e] eqn:Eq.
  - destruct (qpoint_of_text_Ok _ _ Eq) as [w ->]. simpl.
    destruct (map_result qpt_numbers _) as [parsed|e]; [|done]. simpl.
    unfold reshape_rows3. simpl. done.
  - by rewrite (qpoint_of_text_Raise _ _ Eq).
Qed.

Lemma parse_rows_spec (texts : list string) :
  parse_rows (replace "qpt" "" <$> texts) = map_result Spec.qpoint_of_text texts.
Proof.
  induction texts as [|text texts IH]; [done|].
  rewrite parse_rows_cons, IH. done.
Qed.

Lemma read_qpoints_spec (lines : list string) :
  _read_qpoints lines = map_result Spec.qpoint_of_text (Spec.first_seen (marker_texts lines)).
Proof.
  unfold _read_qpoints. rewrite qpt_scan_first_seen.
  apply parse_rows_spec.
Qed.

Lemma map_result_length {A B : Type} (f : A → result B) (xs : list A) (ys : list B) :
  map_result f xs = Ok ys → length ys = length xs.
Proof.
  revert ys. induction xs as [|x xs IH]; intros ys; simpl.
  - by intros [= <-].
  - destruct (f x); [|done]. simpl. destruct (map_result f xs); [|done]. simpl.
    intros [= <-]. simpl. f_equal. by apply IH.
Qed.

(** C3.  The texts the extractor parses are the trimmed marker lines, each
    kept once, at the place of its first occurrence: the result of
    [_read_qpoints] is the q-points (or the first exception) of these
    texts in this order.  So the texts are pairwise distinct and are the
    trimmed marker lines; and for two marker lines the extractor parses one
    text when their trimmed texts are the same and both, in the order of
    the file, as soon as the texts differ, whatever numbers they denote. *)
Theorem read_qpoints_first_seen (lines : list string) :
  let texts := Spec.first_seen (marker_texts lines) in
  _read_qpoints lines = map_result Spec.qpoint_of_text texts ∧
  NoDup texts ∧
  (∀ text, text ∈ texts ↔ text ∈ marker_texts lines) ∧
  (∀ qpoints, _read_qpoints lines = Ok qpoints → length qpoints = length texts) ∧
  (∀ a b, lines = [a; b] →
     startswith "qpt" (strip a) = true → startswith "qpt" (strip b) = true →
     texts = if decide (strip a = strip b) then [strip a] else [strip a; strip b]).
Proof.
  cbv zeta. split; [apply read_qpoints_spec|].
  split; [apply NoDup_first_seen|].
  split; [intros text; apply elem_of_first_seen|].
  split.
  - intros qpoints. rewrite read_qpoints_spec. apply map_result_length.
  - intros a b -> Ha Hb. unfold marker_texts. cbn [fmap list_fmap].
    rewrite filter_cons_True by done. rewrite filter_cons_True by done.
    rewrite filter_nil. cbn [Spec.first_seen]. rewrite filter_nil.
    destruct (decide (strip a = strip b)) as [E|E].
    + rewrite filter_cons_False; [by rewrite filter_nil | naive_solver].
    + rewrite filter_cons_True; [by rewrite filter_nil | naive_solver].
Qed.

Lemma read_qpoints_first_seen_witness :
  _read_qpoints [ "qpt 0.25 0 0 1.0"; " qpt 0.25 0 0 1.0 "; "qpt 0.250 0 0 1.0" ]%string =
  Ok [ (Fin (1 # 4), Fin 0, Fin 0); (Fin (1 # 4), Fin 0, Fin 0) ].
Proof.
  pose proof (read_qpoints_first_seen
    [ "qpt 0.25 0 0 1.0"; " qpt 0.25 0 0 1.0 "; "qpt 0.250 0 0 1.0" ]%string) as H.
  cbv zeta in H. destruct H as [H _]. rewrite H. vm_compute. reflexivity.
Defined.

(** Two verbatim copies of a line give one q-point; a trailing zero added
    to the copy gives two, of the same value. *)
Example read_qpoints_verbatim :
  _read_qpoints [ "qpt 0.25 0 0 1.0"; "qpt 0.25 0 0 1.0" ]%string =
  Ok [ (Fin (1 # 4), Fin 0, Fin 0) ].
Proof. vm_compute. reflexivity. Qed.

Example read_qpoints_trailing_zero :
  _read_qpoints [ "qpt 0.25 0 0 1.0"; "qpt 0.250 0 0 1.0" ]%string =
  Ok [ (Fin (1 # 4), Fin 0, Fin 0); (Fin (1 # 4), Fin 0, Fin 0) ].
Proof. vm_compute. reflexivity. Qed.

(** C4, as the code has it.  A line of the file is taken as a record when
    its trimmed text begins with the three characters of the marker: its
    text is then among the seen ones and its text without the marker among
    the collected ones.  A line whose first token is the marker is such a
    line; the converse is not required. *)
Theorem qpt_record_iff_prefix (lines : list string) (line : string) :
  line ∈ lines →
  (strip line ∈ (qpt_scan lines).2 ↔ startswith "qpt" (strip line) = true) ∧
  (startswith "qpt" (strip line) = true →
     replace "qpt" "" (strip line) ∈ (qpt_scan lines).1) ∧
  (Spec.first_token_is_marker line = true → strip line ∈ (qpt_scan lines).2).
Proof.
  intros Hline. rewrite qpt_scan_first_seen. cbn [fst snd].
  assert (Hin : startswith "qpt" (strip line) = true → strip line ∈ marker_texts lines).
  { intros Hp. unfold marker_texts. apply list_elem_of_filter. split; [done|].
    by apply list_elem_of_fmap_2. }
  split; [|split].
  - rewrite elem_of_list_to_set. split; [|done].
    unfold marker_texts. rewrite list_elem_of_filter. naive_solver.
  - intros Hp. apply list_elem_of_fmap_2, elem_of_first_seen. auto.
  - intros Ht. apply elem_of_list_to_set, Hin. by apply first_token_startswith.
Qed.

Lemma qpt_record_iff_prefix_witness :
  ("qpt 0.5 0.0 0.0 1.0"%string ∈ (qpt_scan [ "qpt 0.5 0.0 0.0 1.0"%string ]).2 ↔
     startswith "qpt" "qpt 0.5 0.0 0.0 1.0" = true) ∧
  " 0.5 0.0 0.0 1.0"%string ∈ (qpt_scan [ "qpt 0.5 0.0 0.0 1.0"%string ]).1.
Proof.
  destruct (qpt_record_iff_prefix [ "qpt 0.5 0.0 0.0 1.0"%string ] "qpt 0.5 0.0 0.0 1.0")
    as (H1 & H2 & _).
  - apply list_elem_of_here.
  - split; [exact H1 | apply H2; reflexivity].
Defined.

(** C4, as it is stated, fails: the first token of [qptfoo 1 2 3 4] is not
    the marker, and the line is taken as a record all the same (the parse
    of its text [foo 1 2 3 4] then raises). *)
Lemma qpt_first_token_not_required :
  ¬ (∀ lines line, line ∈ lines →
       (strip line ∈ (qpt_scan lines).2 ↔ Spec.first_token_is_marker line = true)).
Proof.
  intros H.
  destruct (H [ "qptfoo 1 2 3 4"%string ] "qptfoo 1 2 3 4"%string) as [Hto _].
  { apply list_elem_of_here. }
  assert (Hseen : strip "qptfoo 1 2 3 4" ∈ (qpt_scan [ "qptfoo 1 2 3 4"%string ]).2).
  { rewrite qpt_scan_first_seen. cbn [snd]. apply elem_of_list_to_set.
    vm_compute. apply list_elem_of_here. }
  specialize (Hto Hseen). vm_compute in Hto. discriminate.
Qed.

Example read_qpoints_qptfoo :
  fst (qpt_scan [ "qptfoo 1 2 3 4"%string ]) = [ "foo 1 2 3 4"%string ] ∧
  _read_qpoints [ "qptfoo 1 2 3 4"%string ] = Raise ValueError ∧
  _read_qpoints [ "qpt1 2 3 4"%string ] = Ok [ (Fin 1, Fin 2, Fin 3) ].
Proof. repeat split; vm_compute; reflexivity. Qed.

(** ** The header parser *)

(** *** Exceptions of the number parsers *)

Lemma int_raises (tok : string) (e : exception) : int tok = Raise e → e = ValueError.
Proof. unfold int. intros H. repeat case_match; by simplify_eq. Qed.

Lemma float_raises (tok : string) (e : exception) : float tok = Raise e → e = ValueError.
Proof. unfold float. intros H. repeat case_match; by simplify_eq. Qed.

Lemma parse_of_raises (t tok : string) (e : exception) :
  parse_of t tok = Raise e → e = ValueError.
Proof.
  unfold parse_of. destruct (contains "." t).
  - destruct (float tok) eqn:E; [done|]. intros [= <-]. by eapply float_raises.
  - destruct (int tok) eqn:E; [done|]. intros [= <-]. by eapply int_raises.
Qed.

Lemma map_result_raises {A B : Type} (f : A → result B) (xs : list A) (e : exception) :
  map_result f xs = Raise e → ∃ x, x ∈ xs ∧ f x = Raise e.
Proof.
  induction xs as [|x xs IH]; simpl; [done|].
  destruct (f x) eqn:E; simpl.
  - destruct (map_result f xs); simpl; [done|]. intros [= <-].
    destruct IH as (x' & ? & ?); [done|]. exists x'. split; [by right | done].
  - intros [= <-]. exists x. split; [by left | done].
Qed.

(** The values a line contributes are of one kind, chosen by its first
    numeric token. *)
Lemma map_parse_of_kind (t : string) (tokens : list string) (vals : list num) :
  map_result (parse_of t) tokens = Ok vals →
  length vals = length tokens ∧
  if contains "." t
  then Forall (fun v => is_float v = true) vals
  else Forall (fun v => is_int v = true) vals.
Proof.
  revert vals. induction tokens as [|tok tokens IH]; intros vals; simpl.
  - intros [= <-]. split; [done|]. destruct (contains "." t); constructor.
  - destruct (parse_of t tok) as [v|] eqn:Ev; [|done]. simpl.
    destruct (map_result (parse_of t) tokens) as [vs|]; [|done]. simpl.
    intros [= <-]. destruct (IH vs eq_refl) as [Hlen Hkind].
    split; [simpl; by f_equal|].
    unfold parse_of in Ev. destruct (contains "." t).
    + constructor; [|done]. destruct (float tok); simpl in Ev; by simplify_eq.
    + constructor; [|done]. destruct (int tok); simpl in Ev; by simplify_eq.
Qed.

Lemma try_except_Ok {A : Type} (body handler : result A) (a : A) :
  try_except_ValueError body handler = Ok a →
  body = Ok a ∨ (body = Raise ValueError ∧ handler = Ok a).
Proof. destruct body as [|[]]; simpl; auto; discriminate. Qed.

Lemma try_except_Raise {A : Type} (body handler : result A) (e : exception) :
  try_except_ValueError body handler = Raise e →
  (body = Raise e ∧ e ≠ ValueError) ∨ (body = Raise ValueError ∧ handler = Raise e).
Proof. destruct body as [|[]]; simpl; auto; intros [= <-]; left; done. Qed.

Lemma continuation_Ok (kvs : keyvals) (tokens : list string) (kvs' : keyvals) :
  continuation kvs tokens = Ok kvs' →
  ∃ t rest init key old more,
    tokens = t :: rest ∧ kvs = init ++ [(key, old)] ∧
    map_result (parse_of t) tokens = Ok more ∧
    kvs' = init ++ [(key, old ++ more)].
Proof.
  unfold continuation. destruct tokens as [|t rest]; [done|].
  destruct (float t); binds; [|done].
  destruct (last kvs) as [[key old]|] eqn:El; [|done].
  destruct (map_result (parse_of t) (t :: rest)) as [more|] eqn:Em; binds; [|done].
  intros [= <-]. apply last_Some in El as [init ->].
  rewrite removelast_last. by exists t, rest, init, key, old, more.
Qed.

Lemma new_key_Ok (kvs : keyvals) (tokens : list string) (kvs' : keyvals) :
  new_key kvs tokens = Ok kvs' →
  ∃ key t rest vals,
    tokens = key :: t :: rest ∧
    map_result (parse_of t) (t :: rest) = Ok vals ∧
    kvs' = kvs ++ [(key, vals)].
Proof.
  unfold new_key. destruct tokens as [|key [|t rest]]; [done..|].
  destruct (map_result (parse_of t) (t :: rest)) as [vals|] eqn:Em; binds; [|done].
  intros [= <-]. by exists key, t, rest, vals.
Qed.

Lemma continuation_raises (kvs : keyvals) (tokens : list string) (e : exception) :
  continuation kvs tokens = Raise e → e = IndexError ∨ e = ValueError.
Proof.
  unfold continuation. destruct tokens as [|t rest]; [intros [= <-]; by left|].
  destruct (float t) eqn:Ef; binds.
  - destruct (last kvs) as [[key old]|]; [|intros [= <-]; by left].
    destruct (map_result (parse_of t) (t :: rest)) as [more|e'] eqn:Em; binds; [done|].
    intros [= <-]. right. apply map_result_raises in Em as (x & _ & Hx).
    by eapply parse_of_raises.
  - intros [= <-]. right. by eapply float_raises.
Qed.

Lemma new_key_raises (kvs : keyvals) (tokens : list string) (e : exception) :
  new_key kvs tokens = Raise e → e = IndexError ∨ e = ValueError.
Proof.
  unfold new_key. destruct tokens as [|key [|t rest]]; try (intros [= <-]; by left).
  destruct (map_result (parse_of t) (t :: rest)) as [vals|e'] eqn:Em; binds; [done|].
  intros [= <-]. right. apply map_result_raises in Em as (x & _ & Hx).
  by eapply parse_of_raises.
Qed.

Lemma header_line_raises (kvs : keyvals) (line : string) (e : exception) :
  header_line kvs line = Raise e → e = IndexError ∨ e = ValueError.
Proof.
  unfold header_line. intros H. apply try_except_Raise in H as [[H _]|[_ H]].
  - by eapply continuation_raises.
  - by eapply new_key_raises.
Qed.

Lemma version_of_raises (line : string) (e : exception) :
  version_of line = Raise e → e = IndexError ∨ e = ValueError.
Proof.
  unfold version_of. destruct (last (split line)); [|intros [= <-]; by left].
  intros H. right. by eapply int_raises.
Qed.

Lemma header_loop_raises (lines : list string) (i : nat) (version : option Z)
    (kvs : keyvals) (e : exception) :
  header_loop i lines version kvs = Raise e → e = IndexError ∨ e = ValueError.
Proof.
  revert i version kvs.
  induction lines as [|raw lines IH]; intros i version kvs; cbn [header_loop]; [done|].
  destruct (String.eqb (strip raw) ""); [apply IH|].
  destruct (if contains "Version" (strip raw) then _ else _) as [v|e'] eqn:Ev; binds.
  - case_bool_decide; [done|].
    destruct (if (6 <=? i)%nat then _ else _) as [kvs'|e'] eqn:Ek; binds; [apply IH|].
    intros [= <-]. destruct (6 <=? i)%nat; [by eapply header_line_raises | done].
  - intros [= <-]. destruct (contains "Version" (strip raw)); [|done].
    destruct (version_of (strip raw)) eqn:Eo; [done|].
    injection Ev as <-. by eapply version_of_raises.
Qed.

Lemma header_loop_unbound (lines : list string) (i : nat) (kvs : keyvals)
    (version : option Z) (kvs' : keyvals) :
  Forall (fun raw => contains "Version" (strip raw) = false) lines →
  header_loop i lines None kvs = Ok (version, kvs') → version = None.
Proof.
  intros Hlines. revert i kvs.
  induction Hlines as [|raw lines Hraw _ IH]; intros i kvs; cbn [header_loop].
  - by intros [= <- _].
  - destruct (String.eqb (strip raw) ""); [apply IH|].
    rewrite Hraw. binds. case_bool_decide; [by intros [= <- _]|].
    destruct (if (6 <=? i)%nat then _ else _) as [kvs1|e']; binds; [apply IH | done].
Qed.

(** C6.  For a file none of whose lines contains the word of the version
    declaration, [_parse_header] raises and returns no header, whatever
    numpy does later: the local variable [version] is still unbound when
    line 103 reads it.  The exception is the [UnboundLocalError] for
    [version] whenever the scan of the lines ends normally; otherwise it
    is the [IndexError] or [ValueError] of the first malformed header line.
    These are the failures the specification names ParseError. *)
Theorem parse_header_without_version (ndarray : Type)
    (np_reshape : hval ndarray → dtype → list (hval ndarray) → result ndarray)
    (np_transpose_each : hval ndarray → result ndarray) (lines : list string) :
  Forall (fun raw => contains "Version" (strip raw) = false) lines →
  ∃ e, _parse_header ndarray np_reshape np_transpose_each lines = Raise e ∧
       (e = UnboundLocalError "version" ∨ e = IndexError ∨ e = ValueError) ∧
       (∀ r, header_loop 0 lines None [] = Ok r → e = UnboundLocalError "version").
Proof.
  intros Hlines. unfold _parse_header.
  destruct (header_loop 0 lines None []) as [[version kvs]|e] eqn:El; binds.
  - rewrite (header_loop_unbound _ _ _ _ _ Hlines El). binds.
    exists (UnboundLocalError "version"). auto.
  - exists e. split; [done|]. split; [|done].
    right. by eapply header_loop_raises.
Qed.

(** C5, as the code has it.  The kind of the stored numbers is chosen line
    by line, from the first numeric token [t] of the line: when a header
    line is accepted, the values it contributes to its key (a new key, or
    the last one for a continuation line) are one per token, all integers
    if [t] has no decimal point and all floats if it has one. *)
Theorem header_line_kind (kvs : keyvals) (line : string) (kvs' : keyvals) :
  header_line kvs line = Ok kvs' →
  ∃ key old t rest vals,
    (split (replace "D-" "E-" (replace "D+" "E+" line)) = t :: rest ∨
     split (replace "D-" "E-" (replace "D+" "E+" line)) = key :: t :: rest) ∧
    (kvs' = kvs ++ [(key, vals)] ∧ old = [] ∨
     ∃ init, kvs = init ++ [(key, old)] ∧ kvs' = init ++ [(key, old ++ vals)]) ∧
    map_result (parse_of t) (t :: rest) = Ok vals ∧
    length vals = length (t :: rest) ∧
    (contains "." t = false → Forall (fun v => is_int v = true) vals) ∧
    (contains "." t = true → Forall (fun v => is_float v = true) vals).
Proof.
  unfold header_line. intros H. apply try_except_Ok in H as [H|[_ H]].
  - apply continuation_Ok in H as (t & rest & init & key & old & more & Ht & -> & Hm & ->).
    exists key, old, t, rest, more. rewrite Ht in Hm |- *.
    destruct (map_parse_of_kind _ _ _ Hm) as [Hlen Hkind].
    split; [by left|]. split; [right; by exists init|]. split; [done|]. split; [done|].
    destruct (contains "." t); split; done.
  - apply new_key_Ok in H as (key & t & rest & vals & Ht & Hm & ->).
    exists key, [], t, rest, vals.
    destruct (map_parse_of_kind _ _ _ Hm) as [Hlen Hkind].
    split; [by right|]. split; [by left|]. split; [done|]. split; [done|].
    destruct (contains "." t); split; done.
Qed.

Lemma header_line_kind_witness :
  ∃ key old t rest vals,
    (split (replace "D-" "E-" (replace "D+" "E+" "0.25D+00 1.0")) = t :: rest ∨
     split (replace "D-" "E-" (replace "D+" "E+" "0.25D+00 1.0")) = key :: t :: rest) ∧
    ([("kpt"%string, [PyFloat (Fin 0); PyFloat (Fin (1 # 4)); PyFloat (Fin 1)])] =
       [("kpt"%string, [PyFloat (Fin 0)])] ++ [(key, vals)] ∧ old = [] ∨
     ∃ init, [("kpt"%string, [PyFloat (Fin 0)])] = init ++ [(key, old)] ∧
       [("kpt"%string, [PyFloat (Fin 0); PyFloat (Fin (1 # 4)); PyFloat (Fin 1)])] =
       init ++ [(key, old ++ vals)]) ∧
    map_result (parse_of t) (t :: rest) = Ok vals ∧
    length vals = length (t :: rest) ∧
    (contains "." t = false → Forall (fun v => is_int v = true) vals) ∧
    (contains "." t = true → Forall (fun v => is_float v = true) vals).
Proof.
  apply (header_line_kind [("kpt"%string, [PyFloat (Fin 0)])] "0.25D+00 1.0").
  vm_compute. reflexivity.
Defined.

(** C5, as it is stated, fails.  The claim makes the values of a key all
    integers or all floats.  In the sample file the key [a] receives the
    token [1.5] on its own line and the token [2] on the next line: the
    first is stored as a float and the second, whose line begins without a
    decimal point, as an integer. *)
Lemma header_key_of_both_kinds :
  header_loop 0 Sample.mixed_file None [] =
    Ok (Some 100401, [("a"%string, [PyFloat (Fin (3 # 2)); PyInt 2])]) ∧
  ¬ (∀ lines version kvs key vals,
       header_loop 0 lines None [] = Ok (version, kvs) → (key, vals) ∈ kvs →
       Forall (fun v => is_int v = true) vals ∨ Forall (fun v => is_float v = true) vals).
Proof.
  assert (Hrun : header_loop 0 Sample.mixed_file None [] =
                 Ok (Some 100401, [("a"%string, [PyFloat (Fin (3 # 2)); PyInt 2])]))
    by (vm_compute; reflexivity).
  split; [exact Hrun|]. intros H.
  destruct (H _ _ _ "a"%string [PyFloat (Fin (3 # 2)); PyInt 2] Hrun) as [Hi|Hf].
  - apply list_elem_of_here.
  - inversion_clear Hi as [|? ? H1 _]. discriminate.
  - inversion_clear Hf as [|? ? _ H2]. inversion_clear H2 as [|? ? H3 _]. discriminate.
Qed.

(** A token with a decimal point behind an integer one is refused on a key
    line and opens a key of its own on a continuation line. *)
Example header_line_late_point :
  header_line [] "key 1 2.5" = Raise ValueError ∧
  header_line [("key"%string, [PyInt 7])] "1 2.5" =
    Ok [("key"%string, [PyInt 7]); ("1"%string, [PyFloat (Fin (5 # 2))])].
Proof. split; vm_compute; reflexivity. Qed.

Lemma parse_header_without_version_witness :
  ∃ e, _parse_header unit (fun _ _ _ => Ok ()) (fun _ => Ok ()) Sample.no_version_file =
         Raise e ∧
       (e = UnboundLocalError "version" ∨ e = IndexError ∨ e = ValueError) ∧
       (∀ r, header_loop 0 Sample.no_version_file None [] = Ok r →
             e = UnboundLocalError "version").
Proof.
  apply parse_header_without_version. repeat constructor.
Defined.

Example parse_header_unbound_version :
  _parse_header unit (fun _ _ _ => Ok ()) (fun _ => Ok ()) Sample.no_version_file =
  Raise (UnboundLocalError "version").
Proof. vm_compute. reflexivity. Qed.

(** A file without a version declaration whose first header line is a
    continuation line fails on that line. *)
Example parse_header_malformed_first :
  _parse_header unit (fun _ _ _ => Ok ()) (fun _ => Ok ())
    [ "a"; "b"; "c"; "d"; "e"; "f"; "1 2 3" ]%string = Raise IndexError.
Proof. vm_compute. reflexivity. Qed.

(** ** The Born effective charges *)

(** After [k] turns of the loop of lines 402-405 the first [k] cells hold
    the tensors of the input in the layout asked for, the others what the
    fresh array held. *)
Lemma store_loop (becs_arr : list (mat33 float64)) (order : string)
    (empty : list (mat33 float64)) (k : nat) :
  (k ≤ length becs_arr)%nat → length empty = length becs_arr →
  foldl (Becs.store becs_arr order) (Ok empty) (seq 0 k) =
  Ok ((Becs.layout order <$> take k becs_arr) ++ drop k empty).
Proof.
  intros Hk Hlen. induction k as [|k IH].
  - cbn [seq foldl]. by rewrite take_0, drop_0.
  - rewrite seq_S, foldl_app, IH by lia. change (0 + k)%nat with k.
    cbn [foldl]. unfold Becs.store. binds.
    destruct (lookup_lt_is_Some_2 becs_arr k) as [mat Hmat]; [lia|].
    unfold getitem. rewrite Hmat. binds.
    unfold setitem. rewrite decide_True; cycle 1.
    { rewrite length_app, length_fmap, length_take, length_drop. lia. }
    f_equal. rewrite (take_S_r _ _ _ Hmat), fmap_app, <- app_assoc. cbn [fmap list_fmap app].
    rewrite insert_app_r_alt; rewrite length_fmap, length_take; [|lia].
    replace (k - k `min` length becs_arr)%nat with 0%nat by lia.
    f_equal. destruct (lookup_lt_is_Some_2 empty k) as [junk Hjunk]; [lia|].
    rewrite (drop_S _ _ _ Hjunk). done.
Qed.

Lemma init_Ok (junk : nat → mat33 float64) (becs_arr : list (mat33 float64))
    (structure : Becs.Structure) (order : string) :
  length becs_arr = length structure →
  Becs.__init__ junk becs_arr structure order =
  Ok {| Becs._structure := structure; Becs.becs := Becs.layout order <$> becs_arr |}.
Proof.
  intros Hlen. unfold Becs.__init__. rewrite decide_True by done.
  rewrite store_loop; [|lia|].
  - binds. rewrite firstn_all, drop_ge, app_nil_r; [done|].
    unfold Becs.np_empty. rewrite length_fmap, length_seq. lia.
  - unfold Becs.np_empty. rewrite length_fmap, length_seq. lia.
Qed.

(** C7.  When the number of tensors in the raw block differs from the
    number of sites of the structure, [Becs.__init__] raises at its first
    statement and no object is built.  The exception is the
    [AssertionError] of the [assert]; it is the failure the specification
    names ShapeMismatchError. *)
Theorem init_length_mismatch (junk : nat → mat33 float64) (becs_arr : list (mat33 float64))
    (structure : Becs.Structure) (order : string) :
  length becs_arr ≠ length structure →
  Becs.__init__ junk becs_arr structure order = Raise AssertionError ∧
  ∀ self, Becs.__init__ junk becs_arr structure order ≠ Ok self.
Proof.
  intros Hne.
  assert (H : Becs.__init__ junk becs_arr structure order = Raise AssertionError).
  { unfold Becs.__init__. by rewrite decide_False. }
  split; [exact H | intros self; rewrite H; discriminate].
Qed.

Lemma init_length_mismatch_witness :
  Becs.__init__ Sample.junk [Sample.ones] [Sample.site; Sample.site] "c" =
    Raise AssertionError ∧
  ∀ self, Becs.__init__ Sample.junk [Sample.ones] [Sample.site; Sample.site] "c" ≠ Ok self.
Proof.
  apply init_length_mismatch. simpl. lia.
Defined.

(** C8.  When the lengths agree, [Becs.__init__] returns an object bound
    to the structure with one tensor per site, whatever the fresh array
    held.  With [order = "f"] the tensor stored for atom [i] is the
    transpose of the [i]-th block of the input; with any other [order] it
    is that block itself. *)
Theorem init_layout (junk : nat → mat33 float64) (becs_arr : list (mat33 float64))
    (structure : Becs.Structure) (order : string) :
  length becs_arr = length structure →
  ∃ self, Becs.__init__ junk becs_arr structure order = Ok self ∧
    Becs._structure self = structure ∧
    length (Becs.becs self) = length structure ∧
    (order = "f"%string →
       ∀ i mat, becs_arr !! i = Some mat → Becs.becs self !! i = Some (transpose mat)) ∧
    (order ≠ "f"%string →
       ∀ i mat, becs_arr !! i = Some mat → Becs.becs self !! i = Some mat).
Proof.
  intros Hlen. eexists. split; [by apply init_Ok|]. cbn.
  split; [done|]. split; [by rewrite length_fmap|].
  unfold Becs.layout. split.
  - intros -> i mat Hi. by rewrite list_lookup_fmap, Hi.
  - intros Hne i mat Hi. apply String.eqb_neq in Hne.
    by rewrite list_lookup_fmap, Hi, Hne.
Qed.

Lemma init_layout_witness :
  ∃ self, Becs.__init__ Sample.junk [Sample.ones] [Sample.site] "f" = Ok self ∧
    Becs._structure self = [Sample.site] ∧
    length (Becs.becs self) = length [Sample.site] ∧
    ("f"%string = "f"%string →
       ∀ i mat, [Sample.ones] !! i = Some mat → Becs.becs self !! i = Some (transpose mat)) ∧
    ("f"%string ≠ "f"%string →
       ∀ i mat, [Sample.ones] !! i = Some mat → Becs.becs self !! i = Some mat).
Proof.
  apply init_layout. reflexivity.
Defined.

Example init_transposes :
  Becs.becs <$> Becs.__init__ Sample.junk [Sample.ones] [Sample.site] "f" =
    Ok [((Fin 1, Fin 4, Fin 7), (Fin 2, Fin 5, Fin 8), (Fin 3, Fin 6, Fin 9))] ∧
  Becs.becs <$> Becs.__init__ Sample.junk [Sample.ones] [Sample.site] "c" =
    Ok [Sample.ones].
Proof. split; vm_compute; reflexivity. Qed.

(** A name that the function does not bind, the module does not define and
    the builtins do not provide raises, whatever the frame holds. *)
Lemma load_unbound (frame : gmap string Becs.value) (name : string) :
  name ∉ Becs.local_names → name ∉ Becs.module_globals → name ∉ Becs.builtins →
  Becs.load frame name = Raise (NameError name).
Proof.
  intros Hl Hg Hb. unfold Becs.load.
  by rewrite !bool_decide_eq_false_2.
Qed.

Lemma bec_atomsum_unbound :
  "bec_atomsum"%string ∉ Becs.local_names ∧
  "bec_atomsum"%string ∉ Becs.module_globals ∧
  "bec_atomsum"%string ∉ Becs.builtins.
Proof.
  repeat split; apply (bool_decide_unpack _); vm_compute; exact I.
Qed.

(** C9 fails on the code.  [check_sumrule] binds the sum to
    [becs_atomsum] and then prints [bec_atomsum], a name that is bound
    nowhere: for every object the title is printed and the call ends with
    a [NameError]. *)
Theorem check_sumrule_raises (self : Becs.t) :
  Becs.check_sumrule self =
  ([Becs.PStr "Born effective charge neutrality sum-rule:"],
   Raise (NameError "bec_atomsum")).
Proof.
  destruct bec_atomsum_unbound as (Hl & Hg & Hb).
  unfold Becs.check_sumrule. cbv zeta.
  by rewrite (load_unbound _ _ Hl Hg Hb).
Qed.

(** The name that was meant is bound to the sum at that point. *)
Example check_sumrule_intended_name (self : Becs.t) :
  Becs.load (<[ "becs_atomsum"%string := Becs.VArray (sum_axis0 (Becs.becs self)) ]>
              {[ "self"%string := Becs.VBecs self ]}) "becs_atomsum" =
  Ok (Becs.VArray (sum_axis0 (Becs.becs self))).
Proof.
  unfold Becs.load. rewrite bool_decide_eq_true_2 by (unfold Becs.local_names; set_solver).
  by rewrite lookup_insert_eq.
Qed.

(** ** More on the header parser *)

Lemma sentinel_line (raw : string) :
  strip raw ∈ sentinels →
  String.eqb (strip raw) "" = false ∧ contains "Version" (strip raw) = false.
Proof.
  unfold sentinels. rewrite !elem_of_cons, elem_of_nil.
  intros [->|[->|[]]]; split; reflexivity.
Qed.

Lemma header_loop_sentinel (pre : list string) (raw : string) (post post' : list string)
    (i : nat) (version : option Z) (kvs : keyvals) :
  strip raw ∈ sentinels →
  header_loop i (pre ++ raw :: post) version kvs =
  header_loop i (pre ++ raw :: post') version kvs.
Proof.
  intros Hs. revert i version kvs.
  induction pre as [|l pre IH]; intros i version kvs; cbn [app header_loop].
  - destruct (sentinel_line raw Hs) as [-> ->]. binds.
    by rewrite bool_decide_eq_true_2.
  - destruct (String.eqb (strip l) ""); [apply IH|].
    destruct (if contains "Version" (strip l) then _ else _) as [v|e]; binds; [|done].
    case_bool_decide; [done|].
    destruct (if (6 <=? i)%nat then _ else _) as [kvs'|e]; binds; [apply IH | done].
Qed.

(** X1.  Nothing behind the line that ends the header is read: two files
    that agree up to and including such a line give the same header or
    the same exception. *)
Theorem parse_header_stops_at_sentinel (ndarray : Type)
    (np_reshape : hval ndarray → dtype → list (hval ndarray) → result ndarray)
    (np_transpose_each : hval ndarray → result ndarray)
    (pre : list string) (raw : string) (post post' : list string) :
  strip raw ∈ sentinels →
  _parse_header ndarray np_reshape np_transpose_each (pre ++ raw :: post) =
  _parse_header ndarray np_reshape np_transpose_each (pre ++ raw :: post').
Proof.
  intros Hs. unfold _parse_header.
  by rewrite (header_loop_sentinel pre raw post post' 0 None [] Hs).
Qed.

Lemma header_loop_past_preamble (lines : list string) (i j : nat)
    (version : option Z) (kvs : keyvals) :
  (6 ≤ i)%nat → (6 ≤ j)%nat →
  header_loop i lines version kvs = header_loop j lines version kvs.
Proof.
  revert i j version kvs.
  induction lines as [|l lines IH]; intros i j version kvs Hi Hj; cbn [header_loop]; [done|].
  destruct (String.eqb (strip l) ""); [apply IH; lia|].
  destruct (if contains "Version" (strip l) then _ else _) as [v|e]; binds; [|done].
  case_bool_decide; [done|].
  rewrite (proj2 (Nat.leb_le 6 i) Hi), (proj2 (Nat.leb_le 6 j) Hj).
  destruct (header_line kvs (strip l)); binds; [apply IH; lia | done].
Qed.

Lemma header_loop_blank (pre : list string) (blank : string) (post : list string)
    (i : nat) (version : option Z) (kvs : keyvals) :
  strip blank = EmptyString → (6 ≤ i + length pre)%nat →
  header_loop i (pre ++ blank :: post) version kvs =
  header_loop i (pre ++ post) version kvs.
Proof.
  intros Hb. revert i version kvs.
  induction pre as [|l pre IH]; intros i version kvs Hi; cbn [app header_loop].
  - rewrite Hb. cbn [String.eqb]. simpl in Hi. apply header_loop_past_preamble; lia.
  - destruct (String.eqb (strip l) ""); [apply IH; simpl in Hi; lia|].
    destruct (if contains "Version" (strip l) then _ else _) as [v|e]; binds; [|done].
    case_bool_decide; [done|].
    destruct (if (6 <=? i)%nat then _ else _) as [kvs'|e]; binds; [|done].
    apply IH. simpl in Hi. lia.
Qed.

(** X2.  A blank line behind the first six lines changes nothing: the
    file with the line and the file without it give the same result. *)
Theorem parse_header_skips_blank (ndarray : Type)
    (np_reshape : hval ndarray → dtype → list (hval ndarray) → result ndarray)
    (np_transpose_each : hval ndarray → result ndarray)
    (pre : list string) (blank : string) (post : list string) :
  strip blank = EmptyString → (6 ≤ length pre)%nat →
  _parse_header ndarray np_reshape np_transpose_each (pre ++ blank :: post) =
  _parse_header ndarray np_reshape np_transpose_each (pre ++ post).
Proof.
  intros Hb Hlen. unfold _parse_header.
  by rewrite (header_loop_blank pre blank post 0 None [] Hb Hlen).
Qed.

Lemma header_loop_preamble (pre rest : list string) (i : nat)
    (version : option Z) (kvs : keyvals) :
  Forall ordinary pre → (i + length pre ≤ 6)%nat →
  header_loop i (pre ++ rest) version kvs =
  header_loop (i + length pre) rest version kvs.
Proof.
  intros Hpre. revert i.
  induction Hpre as [|l pre [Hv Hs] _ IH]; intros i Hi; cbn [app header_loop length].
  - by rewrite Nat.add_0_r.
  - simpl in Hi. replace (i + S (length pre))%nat with (S i + length pre)%nat by lia.
    destruct (String.eqb (strip l) ""); [apply IH; lia|].
    rewrite Hv. binds. rewrite bool_decide_eq_false_2 by done.
    replace (6 <=? i)%nat with false by (symmetry; apply Nat.leb_gt; lia).
    binds. apply IH. lia.
Qed.

Lemma header_loop_alike (pre pre' rest : list string) (i : nat)
    (version : option Z) (kvs : keyvals) :
  Forall2 alike pre pre' → (i + length pre ≤ 6)%nat →
  header_loop i (pre ++ rest) version kvs = header_loop i (pre' ++ rest) version kvs.
Proof.
  intros Hpre. revert i version.
  induction Hpre as [|l l' pre pre' Hl _ IH]; intros i version Hi; [done|].
  cbn [length] in Hi. destruct Hl as [<-|[Hl Hl']].
  - cbn [app header_loop].
    destruct (String.eqb (strip l) ""); [apply IH; lia|].
    destruct (if contains "Version" (strip l) then _ else _) as [v|e]; binds; [|done].
    case_bool_decide; [done|].
    replace (6 <=? i)%nat with false by (symmetry; apply Nat.leb_gt; lia).
    binds. apply IH. lia.
  - change ((l :: pre) ++ rest) with ([l] ++ (pre ++ rest)).
    change ((l' :: pre') ++ rest) with ([l'] ++ (pre' ++ rest)).
    rewrite (header_loop_preamble [l] (pre ++ rest) i version kvs);
      [|by apply Forall_singleton | cbn [length]; lia].
    rewrite (header_loop_preamble [l'] (pre' ++ rest) i version kvs);
      [|by apply Forall_singleton | cbn [length]; lia].
    cbn [length]. apply IH. lia.
Qed.

(** X3.  In the first six lines only the lines with the version or the
    end of the header count: when the other lines of the preamble are
    replaced by other such lines, blank or not, the result is the same. *)
Theorem parse_header_ignores_preamble (ndarray : Type)
    (np_reshape : hval ndarray → dtype → list (hval ndarray) → result ndarray)
    (np_transpose_each : hval ndarray → result ndarray)
    (pre pre' rest : list string) :
  Forall2 alike pre pre' → (length pre ≤ 6)%nat →
  _parse_header ndarray np_reshape np_transpose_each (pre ++ rest) =
  _parse_header ndarray np_reshape np_transpose_each (pre' ++ rest).
Proof.
  intros Hpre Hlen. unfold _parse_header.
  by rewrite (header_loop_alike pre pre' rest 0 None [] Hpre).
Qed.

Lemma parse_header_stops_at_sentinel_witness :
  _parse_header unit More.np_reshape_unit More.np_transpose_unit
    ((More.preamble ++ More.header_lines) ++ More.sentinel :: [ "  zion 4.0"%string ]) =
  _parse_header unit More.np_reshape_unit More.np_transpose_unit
    ((More.preamble ++ More.header_lines) ++ More.sentinel :: [ "1 2 3"; "key" ]%string).
Proof.
  apply parse_header_stops_at_sentinel. vm_compute. apply list_elem_of_further, list_elem_of_here.
Defined.

Lemma parse_header_skips_blank_witness :
  _parse_header unit More.np_reshape_unit More.np_transpose_unit
    (More.preamble ++ "   "%string :: More.header_lines) =
  _parse_header unit More.np_reshape_unit More.np_transpose_unit
    (More.preamble ++ More.header_lines).
Proof.
  apply parse_header_skips_blank.
  - reflexivity.
  - simpl. lia.
Defined.

Lemma alike_preambles :
  Forall2 alike More.preamble
    [ "free text"; "+DDB, Version number    100401"; ""; "x"; "y"; "z" ]%string.
Proof.
  unfold More.preamble.
  repeat (constructor;
          [first [ by left
                 | right; split; (split; [reflexivity|]);
                   unfold sentinels; rewrite !elem_of_cons, elem_of_nil;
                   intros [H|[H|[]]]; discriminate H ] |]).
  constructor.
Qed.

Lemma parse_header_ignores_preamble_witness :
  _parse_header unit More.np_reshape_unit More.np_transpose_unit
    (More.preamble ++ More.header_lines) =
  _parse_header unit More.np_reshape_unit More.np_transpose_unit
    ([ "free text"; "+DDB, Version number    100401"; ""; "x"; "y"; "z" ]%string
       ++ More.header_lines).
Proof.
  apply parse_header_ignores_preamble.
  - exact alike_preambles.
  - simpl. lia.
Defined.

Lemma flat_header_snoc {ndarray : Type} (version : Z) (kvs : list (string * list num)) key value :
  flat_header (ndarray := ndarray) version (kvs ++ [(key, value)]) =
  <[key := collapse ndarray value]> (flat_header version kvs).
Proof. unfold flat_header. by rewrite foldl_app. Qed.

(** The value of a key in the header of line 106: the values of the last
    line group that opened the key, a single value being stored bare; the
    version for [version] when no key of that name occurs. *)
Lemma flat_header_lookup_last {ndarray : Type} (version : Z) (kvs : list (string * list num)) key :
  flat_header (ndarray := ndarray) version kvs !! key =
  match last (filter (fun kv => kv.1 = key) kvs) with
  | Some kv => Some (collapse ndarray kv.2)
  | None => if decide (key = "version"%string) then Some (HNum (PyInt version)) else None
  end.
Proof.
  induction kvs as [|[k value] kvs IH] using rev_ind.
  - cbn. unfold flat_header. cbn [foldl]. destruct (decide (key = "version"%string)) as [->|Hne].
    + apply lookup_singleton_eq.
    + by apply lookup_singleton_ne.
  - rewrite flat_header_snoc, filter_app.
    destruct (decide (k = key)) as [->|Hne].
    + rewrite lookup_insert_eq. rewrite filter_cons_True by done.
      rewrite filter_nil, last_snoc. done.
    + rewrite lookup_insert_ne by done. rewrite filter_cons_False by done.
      rewrite filter_nil, app_nil_r. exact IH.
Qed.

Lemma flat_header_absent {ndarray : Type} (version : Z) (kvs : list (string * list num)) key :
  key ≠ "version"%string → key ∉ kvs.*1 →
  flat_header (ndarray := ndarray) version kvs !! key = None.
Proof.
  intros Hv. induction kvs as [|[k value] kvs IH] using rev_ind; intros Hk.
  - unfold flat_header. cbn [foldl]. by apply lookup_singleton_ne.
  - rewrite fmap_app, not_elem_of_app in Hk. destruct Hk as [Hk Hk0].
    rewrite flat_header_snoc, lookup_insert_ne; [by apply IH|].
    intros ->. apply Hk0. cbn. apply list_elem_of_here.
Qed.

Lemma flat_header_present {ndarray : Type} (version : Z) (kvs : list (string * list num)) key :
  key ∈ kvs.*1 →
  ∃ value, flat_header (ndarray := ndarray) version kvs !! key = Some (collapse ndarray value).
Proof.
  intros Hk. rewrite flat_header_lookup_last.
  destruct (last (filter (fun kv => kv.1 = key) kvs)) as [[k value]|] eqn:El; [by exists value|].
  apply last_None in El. apply list_elem_of_fmap in Hk as ([k value] & -> & Hin).
  assert (Hf : (k, value) ∈ filter (fun kv => kv.1 = (k, value).1) kvs).
  { apply list_elem_of_filter. done. }
  rewrite El in Hf. by apply elem_of_nil in Hf.
Qed.

Lemma collapse_not_array {ndarray : Type} (value : list num) (a : ndarray) : collapse ndarray value ≠ HArr a.
Proof. by destruct value as [|v [|w value]]. Qed.

Lemma reshape_all_lookup {ndarray : Type}
    (np_reshape : hval ndarray → dtype → list (hval ndarray) → result ndarray)
    (h : gmap string (hval ndarray)) arrays (h' : gmap string (hval ndarray)) :
  reshape_all ndarray np_reshape h arrays = Ok h' →
  ∀ k, (k ∈ arrays.*1 → ∃ a, h' !! k = Some (HArr a)) ∧
       (k ∉ arrays.*1 → h' !! k = h !! k).
Proof.
  revert h. induction arrays as [|[k0 [shape dt]] arrays IH]; intros h; cbn [reshape_all].
  - intros [= <-] k. split; [by intros ?%elem_of_nil | done].
  - unfold reshape_entry. destruct (getkey ndarray h k0) as [v|]; binds; [|done].
    destruct (np_reshape v dt shape) as [a|]; binds; [|done].
    intros Hrest k. destruct (IH _ Hrest k) as [Hin Hout].
    cbn [fmap list_fmap fst]. rewrite elem_of_cons. split.
    + intros [->|Hk]; [|auto].
      destruct (decide (k0 ∈ arrays.*1)) as [Hk|Hk]; [auto|].
      exists a. rewrite (Hout Hk). apply lookup_insert_eq.
    + intros Hk. rewrite Hout by tauto. apply lookup_insert_ne. intros ->. tauto.
Qed.

(** The steps of [_parse_header] after the scan. *)
Lemma parse_header_Ok {ndarray : Type}
    (np_reshape : hval ndarray → dtype → list (hval ndarray) → result ndarray)
    (np_transpose_each : hval ndarray → result ndarray)
    (lines : list string) (h : gmap string (hval ndarray)) :
  _parse_header ndarray np_reshape np_transpose_each lines = Ok h →
  ∃ version kvs h1 nkpt nsym natom s,
    header_loop 0 lines None [] = Ok (Some version, kvs) ∧
    getattr ndarray (flat_header version kvs) "nkpt" = Ok nkpt ∧
    getattr ndarray (flat_header version kvs) "nsym" = Ok nsym ∧
    getattr ndarray (flat_header version kvs) "natom" = Ok natom ∧
    reshape_all ndarray np_reshape (flat_header version kvs)
      [ ("kpt"%string, ([nkpt; three ndarray], np_double));
        ("rprim"%string, ([three ndarray; three ndarray], np_double));
        ("symrel"%string, ([nsym; three ndarray; three ndarray], np_int));
        ("tnons"%string, ([nsym; three ndarray], np_double));
        ("xred"%string, ([natom; three ndarray], np_double));
        ("znucl"%string, ([HNum (PyInt (-1))], np_int)) ] = Ok h1 ∧
    h = <["symrel"%string := HArr s]> h1.
Proof.
  unfold _parse_header.
  destruct (header_loop 0 lines None []) as [[[version|] kvs]|]; binds; [|done..].
  change (foldl _ _ kvs) with (flat_header (ndarray := ndarray) version kvs).
  destruct (getattr ndarray _ "nkpt") as [nkpt|] eqn:E1; binds; [|done].
  destruct (getattr ndarray _ "nsym") as [nsym|] eqn:E2; binds; [|done].
  destruct (getattr ndarray _ "natom") as [natom|] eqn:E3; binds; [|done].
  destruct (reshape_all _ _ _ _) as [h1|] eqn:E4; binds; [|done].
  destruct (getattr ndarray h1 "symrel") as [symrel|]; binds; [|done].
  destruct (np_transpose_each symrel) as [s|]; binds; [|done].
  intros [= <-]. by exists version, kvs, h1, nkpt, nsym, natom, s.
Qed.

(** X5.  When [_parse_header] returns a header, the scan had found the
    version, the six keys of [arrays] hold arrays, every other key holds
    what line 106 stored for it, and the three counts [nkpt], [nsym] and
    [natom] were keys of the file. *)
Theorem parse_header_fields {ndarray : Type}
    (np_reshape : hval ndarray → dtype → list (hval ndarray) → result ndarray)
    (np_transpose_each : hval ndarray → result ndarray)
    (lines : list string) (h : gmap string (hval ndarray)) :
  _parse_header ndarray np_reshape np_transpose_each lines = Ok h →
  ∃ version kvs,
    header_loop 0 lines None [] = Ok (Some version, kvs) ∧
    (∀ k, k ∈ array_names → ∃ a, h !! k = Some (HArr a)) ∧
    (∀ k, k ∉ array_names → h !! k = flat_header version kvs !! k) ∧
    (∀ k, k ∈ ["nkpt"; "nsym"; "natom"]%string → k ∈ kvs.*1).
Proof.
  intros (version & kvs & h1 & nkpt & nsym & natom & s & Hloop & E1 & E2 & E3 & E4 & ->)%parse_header_Ok.
  exists version, kvs. split; [done|].
  pose proof (reshape_all_lookup _ _ _ _ E4) as Hr.
  split; [|split].
  - intros k Hk. destruct (decide (k = "symrel"%string)) as [->|Hne].
    + exists s. apply lookup_insert_eq.
    + rewrite lookup_insert_ne by done. by apply Hr.
  - intros k Hk. rewrite lookup_insert_ne.
    + by apply Hr.
    + intros <-. apply Hk. unfold array_names. set_solver.
  - intros k Hk.
    destruct (decide (k ∈ kvs.*1)) as [|Hout]; [done|]. exfalso.
    assert (Hnone : flat_header (ndarray := ndarray) version kvs !! k = None).
    { apply flat_header_absent; [|done]. intros ->. set_solver. }
    unfold getattr in E1, E2, E3.
    rewrite !elem_of_cons, elem_of_nil in Hk.
    destruct Hk as [->|[->|[->|[]]]]; rewrite Hnone in *; done.
Qed.

(** X6.  When the scan ends with a version, a count that the file does not
    define makes [_parse_header] raise an [AttributeError] that names it:
    [nkpt] first, then [nsym], then [natom], before any array is
    reshaped. *)
Theorem parse_header_missing_count {ndarray : Type}
    (np_reshape : hval ndarray → dtype → list (hval ndarray) → result ndarray)
    (np_transpose_each : hval ndarray → result ndarray)
    (lines : list string) (version : Z) (kvs : list (string * list num)) :
  header_loop 0 lines None [] = Ok (Some version, kvs) →
  ("nkpt"%string ∉ kvs.*1 →
     _parse_header ndarray np_reshape np_transpose_each lines = Raise (AttributeError "nkpt")) ∧
  ("nkpt"%string ∈ kvs.*1 → "nsym"%string ∉ kvs.*1 →
     _parse_header ndarray np_reshape np_transpose_each lines = Raise (AttributeError "nsym")) ∧
  ("nkpt"%string ∈ kvs.*1 → "nsym"%string ∈ kvs.*1 → "natom"%string ∉ kvs.*1 →
     _parse_header ndarray np_reshape np_transpose_each lines = Raise (AttributeError "natom")).
Proof.
  intros Hloop. unfold _parse_header. rewrite Hloop. binds.
  change (foldl _ _ kvs) with (flat_header (ndarray := ndarray) version kvs).
  unfold getattr. repeat split.
  - intros H1. rewrite (flat_header_absent version kvs "nkpt") by done. reflexivity.
  - intros [v1 ->]%(flat_header_present version) H2. binds. rewrite (flat_header_absent version kvs "nsym") by done. reflexivity.
  - intros [v1 ->]%(flat_header_present version) [v2 ->]%(flat_header_present version) H3.
    binds. rewrite (flat_header_absent version kvs "natom") by done. reflexivity.
Qed.


(** X7.  In the header of line 106 a key that occurs several times holds
    the values of its last occurrence, a single value being stored bare
    and several as a list; [version] holds the version unless a key of
    that name replaces it. *)
Theorem header_last_occurrence {ndarray : Type} (version : Z)
    (kvs : list (string * list num)) (key : string) :
  flat_header (ndarray := ndarray) version kvs !! key =
  match last (filter (fun kv => kv.1 = key) kvs) with
  | Some kv => Some (collapse ndarray kv.2)
  | None => if decide (key = "version"%string) then Some (HNum (PyInt version)) else None
  end.
Proof. apply flat_header_lookup_last. Qed.

(** ** params *)





(** ** The first line of the header proper *)

Lemma header_loop_first_line (pre : list string) (line : string) (more : list string) (e : exception) :
  Forall ordinary pre → length pre = 6%nat →
  strip line ≠ EmptyString → ordinary line →
  header_line [] (strip line) = Raise e →
  header_loop 0 (pre ++ line :: more) None [] = Raise e.
Proof.
  intros Hpre Hlen Hne [Hv Hs] He.
  rewrite (header_loop_preamble pre _ 0 None [] Hpre) by lia.
  rewrite Hlen. cbn [header_loop Nat.add].
  destruct (String.eqb_spec (strip line) "") as [|_]; [done|].
  rewrite Hv. binds. rewrite bool_decide_eq_false_2 by done.
  cbn [Nat.leb]. by rewrite He.
Qed.

Lemma numeric_line_ordinary (line t : string) (rest : list string) (x : float64) :
  split (replace "D-" "E-" (replace "D+" "E+" (strip line))) = t :: rest →
  float t = Ok x →
  strip line ≠ EmptyString ∧ strip line ∉ sentinels.
Proof.
  intros Hsplit Hfloat. split.
  - intros E. rewrite E in Hsplit. discriminate.
  - unfold sentinels. rewrite !elem_of_cons, elem_of_nil.
    intros [E|[E|[]]]; rewrite E in Hsplit; vm_compute in Hsplit;
      injection Hsplit as <- _; vm_compute in Hfloat; discriminate.
Qed.

(** X10.  When the first line behind a preamble of six ordinary lines
    begins with a number, there is no key to continue and
    [_parse_header] raises an [IndexError]. *)
Theorem parse_header_numeric_first (ndarray : Type)
    (np_reshape : hval ndarray → dtype → list (hval ndarray) → result ndarray)
    (np_transpose_each : hval ndarray → result ndarray)
    (pre : list string) (line : string) (more : list string)
    (t : string) (rest : list string) (x : float64) :
  Forall ordinary pre → length pre = 6%nat →
  contains "Version" (strip line) = false →
  split (replace "D-" "E-" (replace "D+" "E+" (strip line))) = t :: rest →
  float t = Ok x →
  _parse_header ndarray np_reshape np_transpose_each (pre ++ line :: more) = Raise IndexError.
Proof.
  intros Hpre Hlen Hv Hsplit Hfloat.
  destruct (numeric_line_ordinary _ _ _ _ Hsplit Hfloat) as [Hne Hs].
  unfold _parse_header. rewrite (header_loop_first_line pre line more IndexError); try done.
  unfold header_line. rewrite Hsplit. unfold continuation. by rewrite Hfloat.
Qed.

(** X11.  When the first line behind a preamble of six ordinary lines is
    a key without a value, [_parse_header] raises an [IndexError]. *)
Theorem parse_header_key_without_value (ndarray : Type)
    (np_reshape : hval ndarray → dtype → list (hval ndarray) → result ndarray)
    (np_transpose_each : hval ndarray → result ndarray)
    (pre : list string) (line : string) (more : list string) (key : string) :
  Forall ordinary pre → length pre = 6%nat →
  contains "Version" (strip line) = false →
  split (replace "D-" "E-" (replace "D+" "E+" (strip line))) = [key] →
  float key = Raise ValueError →
  _parse_header ndarray np_reshape np_transpose_each (pre ++ line :: more) = Raise IndexError.
Proof.
  intros Hpre Hlen Hv Hsplit Hfloat.
  assert (Hne : strip line ≠ EmptyString).
  { intros E. rewrite E in Hsplit. discriminate. }
  assert (Hs : strip line ∉ sentinels).
  { unfold sentinels. rewrite !elem_of_cons, elem_of_nil.
    intros [E|[E|[]]]; rewrite E in Hsplit; vm_compute in Hsplit; discriminate. }
  unfold _parse_header. rewrite (header_loop_first_line pre line more IndexError); try done.
  unfold header_line. rewrite Hsplit. unfold continuation. by rewrite Hfloat.
Qed.

(** X4.  The scan of the lines raises nothing but [IndexError] and
    [ValueError]. *)
Theorem header_scan_exceptions (lines : list string) (e : exception) :
  header_loop 0 lines None [] = Raise e → e = IndexError ∨ e = ValueError.
Proof. apply header_loop_raises. Qed.

Lemma header_scan_exceptions_witness :
  IndexError = IndexError ∨ IndexError = ValueError.
Proof.
  apply (header_scan_exceptions (More.preamble ++ [ "1 2 3"%string ])).
  vm_compute. reflexivity.
Defined.

Lemma sample_header_parses :
  ∃ h, _parse_header unit More.np_reshape_unit More.np_transpose_unit
         (More.preamble ++ More.header_lines) = Ok h.
Proof.
  destruct (_parse_header unit More.np_reshape_unit More.np_transpose_unit
              (More.preamble ++ More.header_lines)) as [h|e] eqn:E.
  - by exists h.
  - vm_compute in E. discriminate E.
Qed.

Lemma parse_header_fields_witness :
  ∃ (h : gmap string (hval unit)) version kvs,
    header_loop 0 (More.preamble ++ More.header_lines) None [] = Ok (Some version, kvs) ∧
    (∀ k, k ∈ array_names → ∃ a, h !! k = Some (HArr a)) ∧
    (∀ k, k ∉ array_names → h !! k = flat_header version kvs !! k) ∧
    (∀ k, k ∈ ["nkpt"; "nsym"; "natom"]%string → k ∈ kvs.*1).
Proof.
  destruct sample_header_parses as [h Hh]. exists h.
  exact (parse_header_fields More.np_reshape_unit More.np_transpose_unit _ h Hh).
Defined.

Lemma parse_header_missing_count_witness :
  _parse_header unit More.np_reshape_unit More.np_transpose_unit
    (More.preamble ++ [ "  natom  1"; "  nkpt  1" ]%string) = Raise (AttributeError "nsym").
Proof.
  destruct (parse_header_missing_count More.np_reshape_unit More.np_transpose_unit
              (More.preamble ++ [ "  natom  1"; "  nkpt  1" ]%string) 100401
              [ ("natom"%string, [PyInt 1]); ("nkpt"%string, [PyInt 1]) ])
    as (_ & Hnsym & _).
  - vm_compute. reflexivity.
  - apply Hnsym.
    + cbn. apply list_elem_of_further, list_elem_of_here.
    + cbn. rewrite !elem_of_cons, elem_of_nil. intros [H|[H|[]]]; discriminate H.
Defined.


(** The parameters of the sample file: the cut-off and the number of
    k-points are there, the k-points and the version are not. *)
Example params_of_sample :
  (fun h => (params h !! "ecut"%string, params h !! "nkpt"%string,
             params h !! "kpt"%string, params h !! "version"%string))
    <$> _parse_header unit More.np_reshape_unit More.np_transpose_unit
          (More.preamble ++ More.header_lines) =
  Ok (Some (HNum (PyFloat (Fin 10))), Some (HNum (PyInt 1)), None, None).
Proof. vm_compute. reflexivity. Qed.

Lemma ordinary_sample_preamble : Forall ordinary [ "a"; "b"; ""; "d"; "e"; "f" ]%string.
Proof.
  repeat (constructor;
          [split; [reflexivity|];
           unfold sentinels; rewrite !elem_of_cons, elem_of_nil;
           intros [H|[H|[]]]; discriminate H |]).
  constructor.
Qed.

Lemma parse_header_numeric_first_witness :
  _parse_header unit More.np_reshape_unit More.np_transpose_unit
    ([ "a"; "b"; ""; "d"; "e"; "f" ]%string ++ "  0.25D+00 1"%string :: [ "natom 1"%string ]) =
  Raise IndexError.
Proof.
  apply (parse_header_numeric_first unit More.np_reshape_unit More.np_transpose_unit
           _ _ _ "0.25E+00"%string [ "1"%string ] (Fin (1 # 4))).
  - exact ordinary_sample_preamble.
  - reflexivity.
  - reflexivity.
  - vm_compute. reflexivity.
  - vm_compute. reflexivity.
Defined.

Lemma parse_header_key_without_value_witness :
  _parse_header unit More.np_reshape_unit More.np_transpose_unit
    ([ "a"; "b"; ""; "d"; "e"; "f" ]%string ++ "  natom"%string :: [ "1"%string ]) =
  Raise IndexError.
Proof.
  apply (parse_header_key_without_value unit More.np_reshape_unit More.np_transpose_unit
           _ _ _ "natom"%string).
  - exact ordinary_sample_preamble.
  - reflexivity.
  - reflexivity.
  - vm_compute. reflexivity.
  - vm_compute. reflexivity.
Defined.

(** ** More on the q-point extractor *)

Lemma marker_texts_app (lines more : list string) :
  marker_texts (lines ++ more) = marker_texts lines ++ marker_texts more.
Proof. unfold marker_texts. by rewrite fmap_app, filter_app. Qed.

Lemma filter_none {A : Type} (P : A → Prop) `{!∀ x, Decision (P x)} (l : list A) :
  Forall (fun x => ¬ P x) l → filter P l = [].
Proof.
  induction 1 as [|x l Hx _ IH]; [done|]. by rewrite filter_cons_False.
Qed.

Lemma first_seen_app (l l' : list string) :
  Spec.first_seen (l ++ l') =
  Spec.first_seen l ++ filter (fun y => y ∉ l) (Spec.first_seen l').
Proof.
  induction l as [|x l IH]; cbn [app Spec.first_seen].
  - by rewrite filter_not_in_nil.
  - rewrite IH, filter_app. f_equal. f_equal.
    rewrite list_filter_filter. apply list_filter_iff. intros y.
    rewrite not_elem_of_cons. tauto.
Qed.

Lemma first_seen_known (l l' : list string) :
  (∀ x, x ∈ l' → x ∈ l) → Spec.first_seen (l ++ l') = Spec.first_seen l.
Proof.
  intros Hsub. rewrite first_seen_app.
  assert (Hnone : filter (fun y => y ∉ l) (Spec.first_seen l') = []).
  { apply filter_none, Forall_forall. intros x Hx Hn. apply (proj1 (elem_of_first_seen _ _)) in Hx. exact (Hn (Hsub x Hx)). }
  by rewrite Hnone, app_nil_r.
Qed.

(** X12.  Lines appended to a file add no q-point when each marker line
    among them already occurs, up to blanks at its ends, in the file: a
    DDB file repeats the line of a q-point before each of its blocks. *)
Theorem read_qpoints_repeated_block (lines more : list string) :
  known_texts lines more →
  _read_qpoints (lines ++ more) = _read_qpoints lines.
Proof.
  intros Hknown. rewrite !read_qpoints_spec, marker_texts_app.
  by rewrite first_seen_known.
Qed.

(** X13.  A file without a marker line, the empty file among them, gives
    the empty list of q-points and no exception. *)
Theorem read_qpoints_no_marker (lines : list string) :
  Forall (fun raw => startswith "qpt" (strip raw) = false) lines →
  _read_qpoints lines = Ok [].
Proof.
  intros Hno. rewrite read_qpoints_spec.
  replace (marker_texts lines) with ([] : list string); [done|].
  symmetry. unfold marker_texts. apply filter_none.
  apply Forall_fmap. eapply Forall_impl; [exact Hno|].
  intros raw Hraw. cbn. by rewrite Hraw.
Qed.

(** *** Blanks around a line *)

Lemma append_cons (c : ascii) (s t : string) :
  String.append (String c s) t = String c (String.append s t).
Proof. reflexivity. Qed.

Lemma append_empty (t : string) : String.append EmptyString t = t.
Proof. reflexivity. Qed.

Lemma lstrip_blank_app (ws s : string) :
  blank ws = true → lstrip (String.append ws s) = lstrip s.
Proof.
  induction ws as [|c ws IH]; [done|]. rewrite append_cons. cbn [blank lstrip].
  intros [Hc Hws]%andb_prop. rewrite Hc. by apply IH.
Qed.

Lemma lstrip_blank (ws : string) : blank ws = true → lstrip ws = EmptyString.
Proof.
  induction ws as [|c ws IH]; [done|]. cbn [blank lstrip].
  intros [Hc Hws]%andb_prop. rewrite Hc. by apply IH.
Qed.

Lemma rstrip_blank (ws : string) : blank ws = true → rstrip ws = EmptyString.
Proof.
  induction ws as [|c ws IH]; [done|]. cbn [blank rstrip].
  intros [Hc Hws]%andb_prop. by rewrite IH, Hc.
Qed.

Lemma rstrip_app_blank (s ws : string) :
  blank ws = true → rstrip (String.append s ws) = rstrip s.
Proof.
  intros Hws. induction s as [|c s IH].
  - rewrite append_empty. by apply rstrip_blank.
  - rewrite append_cons. cbn [rstrip]. by rewrite IH.
Qed.

Lemma lstrip_app_blank (s ws : string) :
  blank ws = true →
  lstrip (String.append s ws) = String.append (lstrip s) ws ∨
  (lstrip s = EmptyString ∧ lstrip (String.append s ws) = EmptyString).
Proof.
  intros Hws. induction s as [|c s IH].
  - right. rewrite append_empty. split; [done|]. by apply lstrip_blank.
  - rewrite append_cons. cbn [lstrip]. destruct (isspace c); [exact IH|]. by left.
Qed.

Lemma strip_padded (line line' : string) : padded line line' → strip line' = strip line.
Proof.
  intros (ws & ws' & Hws & Hws' & ->). unfold strip.
  rewrite lstrip_blank_app by done.
  destruct (lstrip_app_blank line ws' Hws') as [->|[-> ->]].
  - by apply rstrip_app_blank.
  - done.
Qed.

(** X14.  Blanks at the ends of the lines, the indentation and the end of
    line among them, do not change the q-points that are read. *)
Theorem read_qpoints_padded (lines lines' : list string) :
  Forall2 padded lines lines' →
  _read_qpoints lines' = _read_qpoints lines.
Proof.
  intros Hpad. rewrite !read_qpoints_spec. unfold marker_texts.
  replace (strip <$> lines') with (strip <$> lines); [done|].
  induction Hpad as [|l l' lines lines' Hl _ IH]; [done|].
  cbn. by rewrite IH, (strip_padded _ _ Hl).
Qed.

Lemma read_qpoints_repeated_block_witness :
  _read_qpoints (More.qpt_lines ++ More.qpt_lines) = _read_qpoints More.qpt_lines.
Proof.
  apply read_qpoints_repeated_block. intros text Htext. exact Htext.
Defined.

Lemma read_qpoints_no_marker_witness :
  _read_qpoints [ "**** DATABASE ****"; "  natom  1"; " q pt 1 2 3 4" ]%string = Ok [].
Proof.
  apply read_qpoints_no_marker. repeat constructor.
Defined.

Lemma padded_sample :
  Forall2 padded [ "qpt 0.5 0.0 0.0 1.0"; "end" ]%string
                 [ "  qpt 0.5 0.0 0.0 1.0 "; "end" ]%string.
Proof.
  constructor; [|constructor; [|constructor]].
  - exists "  "%string, " "%string. repeat split; reflexivity.
  - exists ""%string, ""%string. repeat split; reflexivity.
Qed.

Lemma read_qpoints_padded_witness :
  _read_qpoints [ "  qpt 0.5 0.0 0.0 1.0 "; "end" ]%string =
  _read_qpoints [ "qpt 0.5 0.0 0.0 1.0"; "end" ]%string.
Proof.
  apply read_qpoints_padded. exact padded_sample.
Defined.




(** ** More on the mesh guess *)

Lemma stars_no_symmetry (qpoints : list (vec3 float64)) : stars [] qpoints = [].
Proof. induction qpoints as [|q qs IH]; [done|]. exact IH. Qed.

(** X16.  Without a symmetry operation there is no star and
    [guessed_ngqpt] raises the [ValueError] of the empty minimum, whatever
    the q-points are. *)
Theorem guessed_ngqpt_no_symmetry (qpoints : list (vec3 float64)) :
  guessed_ngqpt [] qpoints = Raise ValueError.
Proof. unfold guessed_ngqpt. by rewrite stars_no_symmetry. Qed.

Lemma proj_map3 {A B : Type} (f : A → B) (a : axis) (v : vec3 A) :
  proj a (map3 f v) = f (proj a v).
Proof. by destruct v as [[x y] z], a. Qed.

Lemma proj_zip3 {A B C : Type} (f : A → B → C) (a : axis) (u : vec3 A) (v : vec3 B) :
  proj a (zip3 f u v) = f (proj a u) (proj a v).
Proof. by destruct u as [[x y] z], v as [[x' y'] z'], a. Qed.

Lemma proj_foldl_zip3 {A : Type} (f : A → A → A) (a : axis) (rs : list (vec3 A)) (r : vec3 A) :
  proj a (foldl (zip3 f) r rs) = foldl f (proj a r) (proj a <$> rs).
Proof.
  revert r. induction rs as [|r' rs IH]; intros r; [done|].
  cbn [foldl fmap list_fmap]. by rewrite IH, proj_zip3.
Qed.

Lemma column_of_rows (a : axis) (rs : list (vec3 float64)) :
  proj a <$> (map3 Float64.abs <$> (zeros_to_inf <$> rs)) =
  (fun c => Float64.abs (if is_zero c then Inf false else c)) <$> (proj a <$> rs).
Proof.
  induction rs as [|r rs IH]; [done|].
  cbn [fmap list_fmap]. f_equal; [|exact IH].
  unfold zeros_to_inf. by rewrite !proj_map3.
Qed.

(** The mesh guess is made direction by direction. *)
Lemma guessed_ngqpt_axis (spacegroup : list SymmOp) (qpoints : list (vec3 float64)) (a : axis) :
  proj a <$> guessed_ngqpt spacegroup qpoints =
  axis_mesh (proj a <$> stars spacegroup qpoints).
Proof.
  unfold guessed_ngqpt, smalls_of, axis_mesh.
  destruct (stars spacegroup qpoints) as [|r rs]; [done|].
  cbn [fmap list_fmap min_axis0]. binds.
  unfold ngqpt_of, zeros_to_one. rewrite !proj_map3, proj_foldl_zip3.
  pose proof (column_of_rows a rs) as Hcol. cbn [fmap list_fmap] in Hcol. rewrite Hcol.
  unfold zeros_to_inf. by rewrite !proj_map3.
Qed.

Lemma axis_mesh_Ok (spacegroup : list SymmOp) (qpoints : list (vec3 float64))
    (a : axis) (n : Z) :
  axis_mesh (proj a <$> stars spacegroup qpoints) = Ok n →
  ∃ mesh, guessed_ngqpt spacegroup qpoints = Ok mesh ∧ proj a mesh = n.
Proof.
  rewrite <- guessed_ngqpt_axis.
  destruct (guessed_ngqpt spacegroup qpoints) as [mesh|]; [|done].
  cbn. intros [= <-]. by exists mesh.
Qed.

(** *** A direction without a non-zero coordinate *)

Lemma foldl_min_inf (xs : list float64) :
  Forall (fun x => x = Inf false) xs → foldl Float64.min (Inf false) xs = Inf false.
Proof. induction 1 as [|x xs -> _ IH]; [done|]. exact IH. Qed.

Lemma axis_mesh_zero (column : list float64) :
  column ≠ [] → Forall (fun c => is_zero c = true) column → axis_mesh column = Ok 1.
Proof.
  intros Hne Hzero. unfold axis_mesh.
  assert (Hinf : Forall (fun x => x = Inf false)
            ((fun c => Float64.abs (if is_zero c then Inf false else c)) <$> column)).
  { apply Forall_fmap. eapply Forall_impl; [exact Hzero|]. intros c Hc. cbn. by rewrite Hc. }
  destruct column as [|c cs]; [done|]. cbn [fmap list_fmap] in *.
  inversion_clear Hinf as [|? ? Hc Hcs]. rewrite Hc, (foldl_min_inf _ Hcs).
  vm_compute. reflexivity.
Qed.

(** X17.  A direction along which every coordinate of the stars is zero
    gets one division. *)
Theorem guessed_ngqpt_zero_axis (spacegroup : list SymmOp) (qpoints : list (vec3 float64))
    (a : axis) :
  spacegroup ≠ [] → qpoints ≠ [] →
  Forall (fun v => is_zero (proj a v) = true) (stars spacegroup qpoints) →
  ∃ mesh, guessed_ngqpt spacegroup qpoints = Ok mesh ∧ proj a mesh = 1.
Proof.
  intros Hsg Hqs Hzero. apply axis_mesh_Ok, axis_mesh_zero.
  - pose proof (stars_nonempty _ _ Hsg Hqs) as Hne.
    by destruct (stars spacegroup qpoints).
  - by apply Forall_fmap.
Qed.

(** *** A direction sampled on a regular grid *)

Lemma Qrint_comp (p q : Q) : (p == q)%Q → Qrint p = Qrint q.
Proof.
  intros Hpq. unfold Qrint. rewrite (Qfloor_comp _ _ Hpq).
  assert (Hc : (p - inject_Z (Qfloor q) ?= 1 # 2)%Q = (q - inject_Z (Qfloor q) ?= 1 # 2)%Q).
  { apply Qcompare_comp; [by rewrite Hpq | reflexivity]. }
  by rewrite Hc.
Qed.

Lemma Qrint_inject_Z (z : Z) : Qrint (inject_Z z) = z.
Proof.
  unfold Qrint. rewrite Qfloor_Z.
  assert (Hc : (inject_Z z - inject_Z z ?= 1 # 2)%Q = Lt).
  { apply Qlt_alt. unfold Qminus. rewrite Qplus_opp_r. reflexivity. }
  by rewrite Hc.
Qed.

Lemma on_grid_above (n : positive) (c : float64) :
  on_grid n c = true →
  above_step n (Float64.abs (if is_zero c then Inf false else c)).
Proof.
  destruct c as [|neg|q]; cbn [on_grid]; [done..|].
  intros Hg. cbn [is_zero]. destruct (Qeq_bool q 0) eqn:E0; [by left|].
  right. exists (Qabs q). split; [done|].
  apply Qeq_bool_iff in Hg. apply Qeq_bool_neq in E0.
  set (k := Qfloor (q * inject_Z (Z.pos n))) in *. clearbody k.
  assert (Hk : k ≠ 0).
  { intros Hk. rewrite Hk in Hg. apply E0.
    apply Qmult_integral in Hg as [Hg|Hg]; [done|]. by vm_compute in Hg. }
  assert (Habs : (1 <= Qabs q * inject_Z (Z.pos n))%Q).
  { assert (He : (Qabs q * inject_Z (Z.pos n) == Qabs (inject_Z k))%Q).
    { rewrite <- Hg, Qabs_Qmult. reflexivity. }
    rewrite He. unfold Qabs, inject_Z, Qle. cbn. lia. }
  destruct (Qabs q) as [m d]. unfold Qle in *. cbn in *. lia.
Qed.

Lemma grid_step_at (n : positive) (c : float64) :
  grid_step n c = true →
  at_step n (Float64.abs (if is_zero c then Inf false else c)).
Proof.
  destruct c as [|neg|q]; cbn [grid_step]; [done..|].
  intros Hg. apply Qeq_bool_iff in Hg. cbn [is_zero].
  destruct (Qeq_bool q 0) eqn:E0.
  - apply Qeq_bool_iff in E0. rewrite E0 in Hg. by vm_compute in Hg.
  - exists (Qabs q). done.
Qed.

Lemma at_step_above (n : positive) (x : float64) : at_step n x → above_step n x.
Proof.
  intros (q & -> & Hq). right. exists q. split; [done|]. rewrite Hq. apply Qle_refl.
Qed.

Lemma min_at_l (n : positive) (x y : float64) :
  at_step n x → above_step n y → at_step n (Float64.min x y).
Proof.
  intros (p & -> & Hp) [->|(q & -> & Hq)]; cbn.
  - by exists p.
  - destruct (Qle_bool p q) eqn:E; [by exists p|].
    exists q. split; [done|]. apply Qle_antisym; [|exact Hq].
    assert (Hlt : (q < p)%Q).
    { apply Qnot_le_lt. intros Hle. apply Qle_bool_iff in Hle. congruence. }
    rewrite <- Hp. by apply Qlt_le_weak.
Qed.

Lemma min_at_r (n : positive) (x y : float64) :
  above_step n x → at_step n y → at_step n (Float64.min x y).
Proof.
  intros [->|(p & -> & Hp)] (q & -> & Hq); cbn.
  - by exists q.
  - destruct (Qle_bool p q) eqn:E; [|by exists q].
    exists p. split; [done|]. apply Qle_bool_iff in E.
    apply Qle_antisym; [by rewrite <- Hq | done].
Qed.

Lemma min_above (n : positive) (x y : float64) :
  above_step n x → above_step n y → above_step n (Float64.min x y).
Proof.
  intros [->|(p & -> & Hp)] [->|(q & -> & Hq)]; cbn.
  - by left.
  - right. by exists q.
  - right. by exists p.
  - destruct (Qle_bool p q); right; eauto.
Qed.

Lemma foldl_min_at (n : positive) (xs : list float64) (x : float64) :
  at_step n x → Forall (above_step n) xs → at_step n (foldl Float64.min x xs).
Proof.
  intros Hx Hxs. revert x Hx. induction Hxs as [|y xs Hy _ IH]; intros x Hx; [done|].
  cbn [foldl]. apply IH. by apply min_at_l.
Qed.

Lemma foldl_min_reaches (n : positive) (xs : list float64) (x : float64) :
  above_step n x → Forall (above_step n) xs → Exists (at_step n) xs →
  at_step n (foldl Float64.min x xs).
Proof.
  intros Hx Hxs Hex. revert x Hx Hxs.
  induction Hex as [y xs Hy|y xs _ IH]; intros x Hx Hxs;
    inversion_clear Hxs as [|? ? Hy' Hxs']; cbn [foldl].
  - apply foldl_min_at; [by apply min_at_r | done].
  - apply IH; [by apply min_above | done].
Qed.

Lemma axis_mesh_grid (n : positive) (column : list float64) :
  Z.pos n ≤ int64_max →
  Forall (fun c => on_grid n c = true) column →
  Exists (fun c => grid_step n c = true) column →
  axis_mesh column = Ok (Z.pos n).
Proof.
  intros Hn Hgrid Hstep. unfold axis_mesh.
  set (g := fun c => Float64.abs (if is_zero c then Inf false else c)).
  assert (Habove : Forall (above_step n) (g <$> column)).
  { apply Forall_fmap. eapply Forall_impl; [exact Hgrid|]. apply on_grid_above. }
  assert (Hat : Exists (at_step n) (g <$> column)).
  { apply Exists_fmap. eapply Exists_impl; [exact Hstep|]. apply grid_step_at. }
  destruct (g <$> column) as [|x xs]; [by apply Exists_nil in Hat|].
  inversion_clear Habove as [|? ? Hx Hxs].
  assert (Hsmall : at_step n (foldl Float64.min x xs)).
  { apply Exists_cons in Hat as [Hat|Hat].
    - by apply foldl_min_at.
    - by apply foldl_min_reaches. }
  destruct Hsmall as (q & -> & Hq). cbv zeta.
  assert (Hq0 : Qeq_bool q 0 = false).
  { destruct (Qeq_bool q 0) eqn:E; [|done]. apply Qeq_bool_iff in E.
    rewrite E in Hq. by vm_compute in Hq. }
  cbn [is_zero]. rewrite Hq0. cbn [inv]. rewrite Hq0. cbn [rint].
  assert (Hr : Qrint (Qred (/ q)) = Z.pos n).
  { rewrite <- (Qrint_inject_Z (Z.pos n)). apply Qrint_comp.
    rewrite Qred_correct, Hq. reflexivity. }
  rewrite Hr, is_zero_of_Z. cbn [Z.eqb].
  rewrite to_int64_of_Z; [done|]. unfold int64_min. lia.
Qed.

(** X18.  The guess recovers a regular grid.  When along a direction the
    coordinates of the stars are multiples of [1/n], one of them is
    [1/n] or [-1/n], and [n] fits the integer type, the guess for this
    direction is [n], whatever the other directions hold. *)
Theorem guessed_ngqpt_regular_axis (spacegroup : list SymmOp)
    (qpoints : list (vec3 float64)) (a : axis) (n : positive) :
  Z.pos n ≤ int64_max →
  Forall (fun v => on_grid n (proj a v) = true) (stars spacegroup qpoints) →
  Exists (fun v => grid_step n (proj a v) = true) (stars spacegroup qpoints) →
  ∃ mesh, guessed_ngqpt spacegroup qpoints = Ok mesh ∧ proj a mesh = Z.pos n.
Proof.
  intros Hn Hgrid Hstep. apply axis_mesh_Ok, axis_mesh_grid; [done| |].
  - by apply Forall_fmap.
  - by apply Exists_fmap.
Qed.

(** *** The Gamma point *)

Lemma dot_zero (r : vec3 Z) (q : vec3 float64) :
  Forall (fun c => is_zero c = true) (coords q) → is_zero (dot r q) = true.
Proof.
  destruct r as [[a b] c], q as [[x y] z]. cbn [coords].
  intros Hq. inversion_clear Hq as [|? ? Hx Hq']. inversion_clear Hq' as [|? ? Hy Hq''].
  inversion_clear Hq'' as [|? ? Hz _].
  destruct x as [| |x]; [done..|]. destruct y as [| |y]; [done..|].
  destruct z as [| |z]; [done..|]. cbn in *.
  apply Qeq_bool_iff in Hx, Hy, Hz. apply Qeq_bool_iff.
  rewrite !Qred_correct, Hx, Hy, Hz. ring.
Qed.

Lemma rotate_k_zero (op : SymmOp) (q : vec3 float64) :
  Forall (fun c => is_zero c = true) (coords q) →
  map3 Float64.abs (zeros_to_inf (rotate_k op q)) = top.
Proof.
  intros Hq. destruct op as [[r1 r2] r3]. unfold rotate_k, zeros_to_inf. cbn [map3].
  by rewrite !(dot_zero _ _ Hq).
Qed.

Lemma min_inf_l (x : float64) : Float64.min (Inf false) x = x.
Proof. by destruct x as [|[]|]. Qed.

Lemma min_inf_r (x : float64) : Float64.min x (Inf false) = x.
Proof. by destruct x as [|[]|]. Qed.

Lemma zip3_min_top_l (v : vec3 float64) : zip3 Float64.min top v = v.
Proof. destruct v as [[x y] z]. unfold top, zip3. by rewrite !min_inf_l. Qed.

Lemma zip3_min_top_r (v : vec3 float64) : zip3 Float64.min v top = v.
Proof. destruct v as [[x y] z]. unfold top, zip3. by rewrite !min_inf_r. Qed.

Lemma foldl_min_tops (tops : list (vec3 float64)) (r : vec3 float64) :
  Forall (fun v => v = top) tops → foldl (zip3 Float64.min) r tops = r.
Proof.
  intros Htops. revert r. induction Htops as [|v tops -> _ IH]; intros r; [done|].
  cbn [foldl]. by rewrite zip3_min_top_r.
Qed.

Lemma min_axis0_tops (before tops after : list (vec3 float64)) :
  Forall (fun v => v = top) tops → before ++ after ≠ [] →
  min_axis0 (before ++ tops ++ after) = min_axis0 (before ++ after).
Proof.
  intros Htops Hne. destruct before as [|r before]; cbn [app].
  - destruct after as [|r after]; [done|].
    destruct Htops as [|v tops -> Htops]; [done|]. cbn [app min_axis0].
    rewrite foldl_app, (foldl_min_tops _ _ Htops). cbn [foldl].
    by rewrite zip3_min_top_l.
  - cbn [min_axis0]. by rewrite !foldl_app, (foldl_min_tops _ _ Htops).
Qed.

Lemma stars_app (spacegroup : list SymmOp) (qs1 qs2 : list (vec3 float64)) :
  stars spacegroup (qs1 ++ qs2) = stars spacegroup qs1 ++ stars spacegroup qs2.
Proof. unfold stars. apply bind_app. Qed.

Lemma stars_cons (spacegroup : list SymmOp) (q : vec3 float64) (qs : list (vec3 float64)) :
  stars spacegroup (q :: qs) = ((fun op => rotate_k op q) <$> spacegroup) ++ stars spacegroup qs.
Proof.
  unfold stars. rewrite bind_cons.
  assert (Hmap : (spacegroup ≫= fun op => [rotate_k op q]) =
                 (fun op => rotate_k op q) <$> spacegroup).
  { induction spacegroup as [|op ops IH]; [done|].
    rewrite bind_cons, fmap_cons, IH. done. }
  by rewrite Hmap.
Qed.

Lemma rows_app (spacegroup : list SymmOp) (qs1 qs2 : list (vec3 float64)) :
  map3 Float64.abs <$> (zeros_to_inf <$> stars spacegroup (qs1 ++ qs2)) =
  (map3 Float64.abs <$> (zeros_to_inf <$> stars spacegroup qs1)) ++
  (map3 Float64.abs <$> (zeros_to_inf <$> stars spacegroup qs2)).
Proof. by rewrite stars_app, !fmap_app. Qed.

Lemma rows_gamma (spacegroup : list SymmOp) (q : vec3 float64) (qs : list (vec3 float64)) :
  Forall (fun c => is_zero c = true) (coords q) →
  ∃ tops, Forall (fun v => v = top) tops ∧
    map3 Float64.abs <$> (zeros_to_inf <$> stars spacegroup (q :: qs)) =
    tops ++ (map3 Float64.abs <$> (zeros_to_inf <$> stars spacegroup qs)).
Proof.
  intros Hq. exists (map3 Float64.abs <$> (zeros_to_inf <$> ((fun op => rotate_k op q) <$> spacegroup))).
  split.
  - rewrite <- !list_fmap_compose. apply Forall_fmap, Forall_forall.
    intros op _. cbn. by apply rotate_k_zero.
  - by rewrite stars_cons, !fmap_app.
Qed.

(** X19.  A q-point whose coordinates are all zero, wherever it stands in
    the list, does not change the guess as long as another q-point is
    left. *)
Theorem guessed_ngqpt_gamma (spacegroup : list SymmOp)
    (before after : list (vec3 float64)) (q : vec3 float64) :
  Forall (fun c => is_zero c = true) (coords q) → before ++ after ≠ [] →
  guessed_ngqpt spacegroup (before ++ q :: after) =
  guessed_ngqpt spacegroup (before ++ after).
Proof.
  intros Hq Hne. destruct (decide (spacegroup = [])) as [->|Hsg].
  { unfold guessed_ngqpt. by rewrite !stars_no_symmetry. }
  unfold guessed_ngqpt, smalls_of. rewrite !rows_app.
  destruct (rows_gamma spacegroup q after Hq) as (tops & Htops & ->).
  rewrite min_axis0_tops; [done | done |].
  rewrite <- rows_app. intros Hnil.
  apply fmap_nil_inv, fmap_nil_inv in Hnil. revert Hnil.
  by apply stars_nonempty.
Qed.

Lemma guessed_ngqpt_zero_axis_witness :
  ∃ mesh, guessed_ngqpt [identity; More.inversion] More.grid4 = Ok mesh ∧ proj axis2 mesh = 1.
Proof.
  apply guessed_ngqpt_zero_axis.
  - discriminate.
  - discriminate.
  - vm_compute. repeat constructor.
Defined.

Lemma guessed_ngqpt_regular_axis_witness :
  ∃ mesh, guessed_ngqpt [identity; More.inversion] More.grid4 = Ok mesh ∧ proj axis1 mesh = 4.
Proof.
  apply (guessed_ngqpt_regular_axis [identity; More.inversion] More.grid4 axis1 4).
  - vm_compute. discriminate.
  - vm_compute. repeat constructor.
  - vm_compute. apply Exists_cons_tl, Exists_cons_tl, Exists_cons_hd. reflexivity.
Defined.

Lemma guessed_ngqpt_gamma_witness :
  guessed_ngqpt [identity]
    ([ (Fin (1 # 4), Fin 0, Fin 0) ] ++ (Fin 0, Fin 0, Fin 0) :: [ (Fin (1 # 2), Fin 0, Fin 0) ]) =
  guessed_ngqpt [identity]
    ([ (Fin (1 # 4), Fin 0, Fin 0) ] ++ [ (Fin (1 # 2), Fin 0, Fin 0) ]).
Proof.
  apply guessed_ngqpt_gamma.
  - repeat constructor.
  - discriminate.
Defined.

(** X20.  Each direction is guessed from the coordinates of the stars
    along it alone: two inputs whose stars have the same coordinates along
    a direction get the same number of divisions there, or fail
    together. *)
Theorem guessed_ngqpt_by_axis (spacegroup spacegroup' : list SymmOp)
    (qpoints qpoints' : list (vec3 float64)) (a : axis) :
  proj a <$> stars spacegroup qpoints = proj a <$> stars spacegroup' qpoints' →
  proj a <$> guessed_ngqpt spacegroup qpoints =
  proj a <$> guessed_ngqpt spacegroup' qpoints'.
Proof. intros Hsame. by rewrite !guessed_ngqpt_axis, Hsame. Qed.

Lemma guessed_ngqpt_by_axis_witness :
  proj axis1 <$> guessed_ngqpt [identity] [ (Fin (1 # 4), Fin 0, Fin 0) ] =
  proj axis1 <$> guessed_ngqpt [identity] [ (Fin (1 # 4), Fin (1 # 3), Fin 5) ].
Proof.
  apply guessed_ngqpt_by_axis. vm_compute. reflexivity.
Defined.

(** *** The order of the q-points and of the operations *)

Lemma feq_refl (x : float64) : feq x x.
Proof. destruct x; cbn; done. Qed.

Lemma feq_sym (x y : float64) : feq x y → feq y x.
Proof. destruct x, y; cbn; done. Qed.

Lemma feq_trans (x y z : float64) : feq x y → feq y z → feq x z.
Proof.
  destruct x, y, z; cbn; try done.
  - congruence.
  - intros H1 H2. by rewrite H1.
Qed.

Lemma min_feq (x x' y y' : float64) :
  feq x x' → feq y y' → feq (Float64.min x y) (Float64.min x' y').
Proof.
  destruct x as [|[]|p], x' as [|[]|p']; cbn [feq]; try done;
    destruct y as [|[]|q], y' as [|[]|q']; cbn [feq]; try done; intros Hp Hq;
    cbn [Float64.min]; qle_bools; cbn [feq]; lra.
Qed.

Lemma min_comm (x y : float64) : feq (Float64.min x y) (Float64.min y x).
Proof.
  destruct x as [|[]|p], y as [|[]|q]; cbn [Float64.min]; qle_bools; cbn [feq];
    first [done | lra].
Qed.

Lemma min_assoc (x y z : float64) :
  feq (Float64.min (Float64.min x y) z) (Float64.min x (Float64.min y z)).
Proof.
  destruct x as [|[]|p], y as [|[]|q], z as [|[]|r]; cbn [Float64.min];
    qle_bools; cbn [Float64.min feq]; qle_bools; cbn [feq]; first [done | lra].
Qed.

Lemma foldl_min_feq (l : list float64) (a a' : float64) :
  feq a a' → feq (foldl Float64.min a l) (foldl Float64.min a' l).
Proof.
  revert a a'. induction l as [|x l IH]; intros a a' Ha; [done|].
  cbn [foldl]. apply IH, min_feq; [done | apply feq_refl].
Qed.

Lemma foldl_min_Permutation (l l' : list float64) :
  l ≡ₚ l' → ∀ a a', feq a a' → feq (foldl Float64.min a l) (foldl Float64.min a' l').
Proof.
  induction 1 as [|x l l' _ IH|x y l|l l' l'' _ IH1 _ IH2]; intros a a' Ha.
  - done.
  - cbn [foldl]. apply IH, min_feq; [done | apply feq_refl].
  - cbn [foldl]. apply foldl_min_feq.
    eapply feq_trans; [apply min_assoc|].
    eapply feq_trans; [apply min_feq; [exact Ha | apply min_comm]|].
    apply feq_sym, min_assoc.
  - eapply feq_trans; [apply IH1, feq_refl | by apply IH2].
Qed.

Lemma is_zero_feq (x y : float64) : feq x y → is_zero x = is_zero y.
Proof.
  destruct x as [| |p], y as [| |q]; cbn [feq is_zero]; try done.
  intros Hpq. destruct (Qeq_bool p 0) eqn:Hp, (Qeq_bool q 0) eqn:Hq; try done.
  - apply Qeq_bool_iff in Hp. apply Qeq_bool_neq in Hq. destruct Hq. by rewrite <- Hpq.
  - apply Qeq_bool_iff in Hq. apply Qeq_bool_neq in Hp. destruct Hp. by rewrite Hpq.
Qed.

Lemma inv_feq (x y : float64) : feq x y → inv x = inv y.
Proof.
  intros Hxy. pose proof (is_zero_feq _ _ Hxy) as Hz.
  destruct x as [|a|p], y as [|b|q]; cbn [feq] in Hxy; try done.
  cbn [is_zero] in Hz. cbn [inv]. rewrite Hz. destruct (Qeq_bool q 0); [done|].
  f_equal. apply Qred_complete. by rewrite Hxy.
Qed.

Lemma axis_mesh_Permutation (column column' : list float64) :
  column ≡ₚ column' → axis_mesh column = axis_mesh column'.
Proof.
  intros Hperm. unfold axis_mesh.
  set (f := fun c => Float64.abs (if is_zero c then Inf false else c)).
  assert (Hf : f <$> column ≡ₚ f <$> column') by by apply fmap_Permutation.
  clearbody f.
  destruct (f <$> column) as [|x xs], (f <$> column') as [|x' xs'].
  - done.
  - by apply Permutation_nil_cons in Hf.
  - symmetry in Hf. by apply Permutation_nil_cons in Hf.
  - pose proof (foldl_min_Permutation _ _ Hf (Inf false) (Inf false) (feq_refl _)) as Hmin.
    cbn [foldl] in Hmin. rewrite !min_inf_l in Hmin.
    set (s := foldl Float64.min x xs) in *. set (s' := foldl Float64.min x' xs') in *.
    clearbody s s'. rewrite (is_zero_feq _ _ Hmin).
    assert (Hinv : inv (if is_zero s' then Fin 1 else s) = inv (if is_zero s' then Fin 1 else s')).
    { destruct (is_zero s'); [done | by apply inv_feq]. }
    by rewrite Hinv.
Qed.

Lemma stars_Permutation (spacegroup spacegroup' : list SymmOp)
    (qpoints qpoints' : list (vec3 float64)) :
  spacegroup ≡ₚ spacegroup' → qpoints ≡ₚ qpoints' →
  stars spacegroup qpoints ≡ₚ stars spacegroup' qpoints'.
Proof.
  intros Hops Hqs. transitivity (stars spacegroup qpoints').
  - unfold stars. by rewrite Hqs.
  - clear Hqs. induction qpoints' as [|q qs IH]; [done|].
    rewrite !stars_cons. apply Permutation_app; [|exact IH].
    by rewrite Hops.
Qed.

Lemma result_vec3_ext {A : Type} (r r' : result (vec3 A)) :
  (∀ a, proj a <$> r = proj a <$> r') → r = r'.
Proof.
  intros H. pose proof (H axis1) as H1. pose proof (H axis2) as H2. pose proof (H axis3) as H3.
  destruct r as [[[x y] z]|e], r' as [[[x' y'] z']|e']; cbn in *; congruence.
Qed.

(** X26.  The guess depends neither on the order of the q-points nor on
    the order of the symmetry operations: the minima of line 193 are taken
    over the same coordinates. *)
Theorem guessed_ngqpt_any_order (spacegroup spacegroup' : list SymmOp)
    (qpoints qpoints' : list (vec3 float64)) :
  spacegroup ≡ₚ spacegroup' → qpoints ≡ₚ qpoints' →
  guessed_ngqpt spacegroup qpoints = guessed_ngqpt spacegroup' qpoints'.
Proof.
  intros Hops Hqs. apply result_vec3_ext. intros a.
  rewrite !guessed_ngqpt_axis. apply axis_mesh_Permutation, fmap_Permutation.
  by apply stars_Permutation.
Qed.

Lemma guessed_ngqpt_any_order_witness :
  guessed_ngqpt [identity; More.inversion]
    [ (Fin (1 # 4), Fin 0, Fin 0); (Fin (1 # 2), Fin (1 # 3), Fin 0) ] =
  guessed_ngqpt [More.inversion; identity]
    [ (Fin (1 # 2), Fin (1 # 3), Fin 0); (Fin (1 # 4), Fin 0, Fin 0) ].
Proof.
  apply guessed_ngqpt_any_order; apply perm_swap.
Defined.

(** ** More on the Born effective charges *)

(** X21.  What the fresh array of line 401 held never shows: the object,
    or the exception, is the same for any content of it. *)
Theorem init_ignores_junk (junk junk' : nat → mat33 float64)
    (becs_arr : list (mat33 float64)) (structure : Becs.Structure) (order : string) :
  Becs.__init__ junk becs_arr structure order = Becs.__init__ junk' becs_arr structure order.
Proof.
  destruct (decide (length becs_arr = length structure)) as [Hlen|Hlen].
  - by rewrite !init_Ok.
  - unfold Becs.__init__. by rewrite !decide_False.
Qed.

Lemma transpose_involutive {A : Type} (m : mat33 A) : transpose (transpose m) = m.
Proof. by destruct m as [[[[a b] c] [[d e] f]] [[g h] i]]. Qed.

(** X22.  Reading the tensors of an object built with [order = "f"] in
    this order again gives back the tensors the object was built from. *)
Theorem init_fortran_twice (junk junk' : nat → mat33 float64)
    (becs_arr : list (mat33 float64)) (structure : Becs.Structure) (self : Becs.t) :
  Becs.__init__ junk becs_arr structure "f" = Ok self →
  Becs.__init__ junk' (Becs.becs self) structure "f" =
  Ok {| Becs._structure := structure; Becs.becs := becs_arr |}.
Proof.
  intros Hinit.
  destruct (decide (length becs_arr = length structure)) as [Hlen|Hlen]; cycle 1.
  { unfold Becs.__init__ in Hinit. by rewrite decide_False in Hinit. }
  rewrite init_Ok in Hinit by done. injection Hinit as <-. cbn [Becs.becs].
  rewrite init_Ok by (by rewrite length_fmap). f_equal. f_equal.
  rewrite <- list_fmap_compose. rewrite <- (list_fmap_id becs_arr) at 2.
  apply list_fmap_ext. intros i m _. cbn. unfold Becs.layout. cbn.
  apply transpose_involutive.
Qed.

Lemma init_fortran_twice_witness :
  Becs.__init__ Sample.junk
    [ ((Fin 1, Fin 4, Fin 7), (Fin 2, Fin 5, Fin 8), (Fin 3, Fin 6, Fin 9)) ]
    [Sample.site] "f" =
  Ok {| Becs._structure := [Sample.site]; Becs.becs := [Sample.ones] |}.
Proof.
  apply (init_fortran_twice Sample.junk Sample.junk [Sample.ones] [Sample.site]
           {| Becs._structure := [Sample.site];
              Becs.becs := [ ((Fin 1, Fin 4, Fin 7), (Fin 2, Fin 5, Fin 8),
                              (Fin 3, Fin 6, Fin 9)) ] |}).
  vm_compute. reflexivity.
Defined.

Lemma zip_lists_zip {A B : Type} (xs : list A) (ys : list B) :
  Becs.zip_lists xs ys = zip xs ys.
Proof.
  revert ys. induction xs as [|x xs IH]; intros [|y ys]; cbn; [done..|]. by rewrite IH.
Qed.

Lemma blocks_length (str_site : Becs.PeriodicSite → string)
    (str_array : mat33 float64 → string)
    (pairs : list (Becs.PeriodicSite * mat33 float64)) :
  length (pairs ≫= fun '(site, bec) =>
            [ String.append "bec at site: " (str_site site); str_array bec; EmptyString ]) =
  (3 * length pairs)%nat.
Proof.
  induction pairs as [|[site bec] pairs IH]; [done|].
  rewrite bind_cons, length_app, IH. cbn [length]. lia.
Qed.

Lemma blocks_of_layout (str_site : Becs.PeriodicSite → string)
    (str_array : mat33 float64 → string) (order : string)
    (sites : list Becs.PeriodicSite) (becs_arr : list (mat33 float64)) :
  (zip sites (Becs.layout order <$> becs_arr) ≫= fun '(site, bec) =>
     [ String.append "bec at site: " (str_site site); str_array bec; EmptyString ]) =
  (zip sites becs_arr ≫= fun '(site, mat) =>
     [ String.append "bec at site: " (str_site site);
       str_array (Becs.layout order mat); EmptyString ]).
Proof.
  revert becs_arr. induction sites as [|site sites IH]; intros [|mat becs_arr]; [done..|].
  cbn [zip zip_with fmap list_fmap]. by rewrite !bind_cons, IH.
Qed.

(** X23.  The text of an object that [__init__] built lists every site:
    behind the structure and an empty line come, site by site in the order
    of the structure, the line of the site, its tensor in the layout asked
    for and an empty line, two pieces and three for each site. *)
Theorem to_lines_of_init (str_structure : Becs.Structure → string)
    (str_site : Becs.PeriodicSite → string) (str_array : mat33 float64 → string)
    (junk : nat → mat33 float64) (becs_arr : list (mat33 float64))
    (structure : Becs.Structure) (order : string) (self : Becs.t) :
  Becs.__init__ junk becs_arr structure order = Ok self →
  Becs.to_lines str_structure str_site str_array self =
    [ str_structure structure; EmptyString ] ++
    (zip structure becs_arr ≫= fun '(site, mat) =>
       [ String.append "bec at site: " (str_site site);
         str_array (Becs.layout order mat); EmptyString ]) ∧
  length (Becs.to_lines str_structure str_site str_array self) =
    (2 + 3 * length structure)%nat.
Proof.
  intros Hinit.
  destruct (decide (length becs_arr = length structure)) as [Hlen|Hlen]; cycle 1.
  { unfold Becs.__init__ in Hinit. by rewrite decide_False in Hinit. }
  rewrite init_Ok in Hinit by done. injection Hinit as <-.
  unfold Becs.to_lines. cbn [Becs._structure Becs.becs].
  rewrite zip_lists_zip. split.
  - f_equal. apply blocks_of_layout.
  - rewrite length_app. cbn [length].
    rewrite blocks_length, length_zip, length_fmap. lia.
Qed.

Lemma to_lines_of_init_witness :
  Becs.to_lines (fun _ => "Si1"%string) Becs.specie (fun _ => "[...]"%string)
    {| Becs._structure := [Sample.site];
       Becs.becs := [ ((Fin 1, Fin 4, Fin 7), (Fin 2, Fin 5, Fin 8), (Fin 3, Fin 6, Fin 9)) ] |} =
    [ "Si1"%string; EmptyString ] ++
    (zip [Sample.site] [Sample.ones] ≫= fun '(site, mat) =>
       [ String.append "bec at site: " (Becs.specie site); "[...]"%string; EmptyString ]) ∧
  length (Becs.to_lines (fun _ => "Si1"%string) Becs.specie (fun _ => "[...]"%string)
    {| Becs._structure := [Sample.site];
       Becs.becs := [ ((Fin 1, Fin 4, Fin 7), (Fin 2, Fin 5, Fin 8), (Fin 3, Fin 6, Fin 9)) ] |}) =
    (2 + 3 * length [Sample.site])%nat.
Proof.
  apply (to_lines_of_init (fun _ => "Si1"%string) Becs.specie (fun _ => "[...]"%string)
           Sample.junk [Sample.ones] [Sample.site] "f").
  vm_compute. reflexivity.
Defined.

Example to_string_sample :
  Becs.to_string (fun _ => "Si1"%string) Becs.specie (fun _ => "[...]"%string)
    {| Becs._structure := [Sample.site]; Becs.becs := [Sample.ones] |} =
  String.append "Si1" (String.append Becs.newline (String.append Becs.newline
    (String.append "bec at site: Si" (String.append Becs.newline
      (String.append "[...]" Becs.newline))))).
Proof. vm_compute. reflexivity. Qed.

(** ** The q-point of anaget_phmodes_at_qpoint *)

(** X24.  When the choice and the check of the q-point succeed, the
    q-point handed on is the argument, if one was given, and else the only
    q-point of the file: nothing is picked from a file with several
    q-points. *)
Theorem phmodes_qpoint_Ok
    (KpointList_index : list (vec3 float64) → vec3 float64 → result Z)
    (qpoints : list (vec3 float64)) (qpoint : option qpoint_arg) (chosen : qpoint_arg) :
  phmodes_qpoint KpointList_index qpoints qpoint = Ok chosen →
  (qpoint = Some chosen ∨
   (qpoint = None ∧ ∃ q, qpoints = [q] ∧ chosen = QPoint q)) ∧
  ∃ i, qindex KpointList_index qpoints chosen = Ok i.
Proof.
  unfold phmodes_qpoint. destruct qpoint as [arg|]; binds.
  - destruct (qindex KpointList_index qpoints arg) as [i|] eqn:Ei; cbn; [|done].
    intros [= <-]. split; [by left | by exists i].
  - unfold getitem. destruct qpoints as [|q [|q' qpoints]]; [done| |].
    + cbn [lookup list_lookup]. binds. rewrite decide_False by (cbn; lia). binds.
      cbn [qindex].
      destruct (KpointList_index [q] q) as [i|] eqn:Ei; cbn; [|done].
      intros [= <-]. split; [|by exists i]. right. split; [done|]. by exists q.
    + cbn [lookup list_lookup]. binds. rewrite decide_True by (cbn; lia). done.
Qed.

(** X25.  The choice and the check of the q-point raise a [ValueError],
    whatever exception the search in the list ended with; the one
    exception is the [IndexError] of a file without q-points when no
    q-point is given.  A file with several q-points and no argument
    always raises. *)
Theorem phmodes_qpoint_Raise
    (KpointList_index : list (vec3 float64) → vec3 float64 → result Z)
    (qpoints : list (vec3 float64)) (qpoint : option qpoint_arg) (e : exception) :
  phmodes_qpoint KpointList_index qpoints qpoint = Raise e →
  (e = ValueError ∧
   ((∃ q e', qpoint = Some (QPoint q) ∧ KpointList_index qpoints q = Raise e') ∨
    (qpoint = None ∧ (2 ≤ length qpoints)%nat) ∨
    (qpoint = None ∧ ∃ q e', qpoints = [q] ∧ KpointList_index [q] q = Raise e'))) ∨
  (e = IndexError ∧ qpoint = None ∧ qpoints = []).
Proof.
  unfold phmodes_qpoint. destruct qpoint as [[i|q]|]; binds.
  - done.
  - cbn. destruct (KpointList_index qpoints q) as [i|e'] eqn:Ei; cbn; [done|].
    intros [= <-]. left. split; [done|]. left. by exists q, e'.
  - unfold getitem. destruct qpoints as [|q [|q' qpoints]].
    + cbn. intros [= <-]. by right.
    + cbn [lookup list_lookup]. binds. rewrite decide_False by (cbn; lia). binds.
      cbn [qindex].
      destruct (KpointList_index [q] q) as [i|e'] eqn:Ei; cbn; [done|].
      intros [= <-]. left. split; [done|]. right. right. split; [done|]. by exists q, e'.
    + cbn [lookup list_lookup]. binds. rewrite decide_True by (cbn; lia). binds.
      intros [= <-]. left. split; [done|]. right. left. split; [done|]. cbn. lia.
Qed.

Lemma phmodes_qpoint_Ok_witness :
  (Some (QInt 7) = Some (QInt 7) ∨
   (Some (QInt 7) = None ∧ ∃ q, [Sample.quarter] = [q] ∧ QInt 7 = QPoint q)) ∧
  ∃ i, qindex More.find_qpoint [Sample.quarter] (QInt 7) = Ok i.
Proof.
  apply (phmodes_qpoint_Ok More.find_qpoint [Sample.quarter] (Some (QInt 7)) (QInt 7)).
  vm_compute. reflexivity.
Defined.

Lemma phmodes_qpoint_Raise_witness :
  (ValueError = ValueError ∧
   ((∃ q e', Some (QPoint Sample.nan_point) = Some (QPoint q) ∧
             More.find_qpoint [Sample.quarter] q = Raise e') ∨
    (Some (QPoint Sample.nan_point) = None ∧ (2 ≤ length [Sample.quarter])%nat) ∨
    (Some (QPoint Sample.nan_point) = None ∧
       ∃ q e', [Sample.quarter] = [q] ∧ More.find_qpoint [q] q = Raise e'))) ∨
  (ValueError = IndexError ∧ Some (QPoint Sample.nan_point) = None ∧ [Sample.quarter] = []).
Proof.
  apply (phmodes_qpoint_Raise More.find_qpoint [Sample.quarter]
           (Some (QPoint Sample.nan_point)) ValueError).
  vm_compute. reflexivity.
Defined.

(** An integer is handed on without a look at the list; without an
    argument the only q-point is taken, and two q-points are one too
    many. *)
Example phmodes_qpoint_samples :
  phmodes_qpoint More.find_qpoint [] (Some (QInt 7)) = Ok (QInt 7) ∧
  phmodes_qpoint More.find_qpoint [Sample.quarter] None = Ok (QPoint Sample.quarter) ∧
  phmodes_qpoint More.find_qpoint [Sample.quarter; Sample.tiny_point] None = Raise ValueError ∧
  phmodes_qpoint More.find_qpoint [] None = Raise IndexError.
Proof. repeat split; vm_compute; reflexivity. Qed.
